(** * Smart-PDF-Reader: the local persistence layer (services/db.ts) and its
    two callers in the visual shell (App.tsx, components/Sidebar.tsx).

    The IndexedDB database opened by [getDB] holds two object stores, both
    with key path [id].  An object store is modelled as a finite map from
    primary key to stored value; a record is stored under the key that the
    key path extracts from it.  Cursors walk an object store (or an index on
    it) in ascending key order and see the store as it is at each step.

    Modelling conventions:
    - an id, a selector or a MIME type (ASCII strings made by [uuidv4()] or
      written in the code) is a [string], each character standing for one
      code unit; a text the user supplies (a name, a search query) is a
      [text], the list of its 16-bit code units;
    - a JS number holding a timestamp, a page number or a byte count is a [Z];
      the quotient of two of them is an IEEE 754 binary64 value, a [double];
      [Date.now()] and [uuidv4()] are inputs of the operation that calls them;
    - [T | null] and [T | undefined] are [option T];
    - an [async] function is the state transformer it denotes once every
      [await] has resumed; the database handle it awaits is the one [getDB]
      memoizes, see [Module Init];
    - where it matters which transactions a call opens, the call is the tree
      of its transactions, an [Async], and the engine commits the
      transactions of the calls in flight one at a time, see [sys_step]. *)

From stdpp Require Import gmap strings list sorting.
From Stdlib Require Import ZArith QArith Qminmax Lqa.
From Stdlib Require Import Floats.SpecFloat.

Local Open Scope Z_scope.

(** ** types.ts *)

(** A text: its UTF-16 code units, each a number below 65536. *)
Abbreviation text := (list N).

(** The text of an ASCII literal. *)
Definition txt (s : string) : text :=
  Ascii.N_of_ascii <$> String.list_ascii_of_string s.

(** A [Blob]: its MIME type and its bytes. *)
Record Blob := mkBlob { blob_type : string; blob_bytes : list Byte.byte }.

Module Category.
Record t := mk { id : string; name : text; createdAt : Z }.
End Category.

Module PdfFile.
Record t := mk {
  id : string;
  name : text;
  categoryId : option string;
  blob : Blob;
  addedAt : Z;
  lastReadAt : option Z;
  currentPage : Z;
  totalPages : Z;
  size : Z
}.

(** Field assignments [file.f = v]. *)
Definition set_categoryId (c : option string) (f : t) : t :=
  mk (id f) (name f) c (blob f) (addedAt f) (lastReadAt f)
     (currentPage f) (totalPages f) (size f).
Definition set_lastReadAt (r : option Z) (f : t) : t :=
  mk (id f) (name f) (categoryId f) (blob f) (addedAt f) r
     (currentPage f) (totalPages f) (size f).
Definition set_currentPage (p : Z) (f : t) : t :=
  mk (id f) (name f) (categoryId f) (blob f) (addedAt f) (lastReadAt f)
     p (totalPages f) (size f).
Definition set_totalPages (n : Z) (f : t) : t :=
  mk (id f) (name f) (categoryId f) (blob f) (addedAt f) (lastReadAt f)
     (currentPage f) n (size f).
End PdfFile.

(** [PdfMetadata = Omit<PdfFile, 'blob'>] *)
Module PdfMetadata.
Record t := mk {
  id : string;
  name : text;
  categoryId : option string;
  addedAt : Z;
  lastReadAt : option Z;
  currentPage : Z;
  totalPages : Z;
  size : Z
}.
End PdfMetadata.

(** The rest pattern [const { blob, ...metadata } = file]. *)
Definition omit_blob (f : PdfFile.t) : PdfMetadata.t :=
  PdfMetadata.mk (PdfFile.id f) (PdfFile.name f) (PdfFile.categoryId f)
    (PdfFile.addedAt f) (PdfFile.lastReadAt f) (PdfFile.currentPage f)
    (PdfFile.totalPages f) (PdfFile.size f).

(** ** JS values used by the code *)

(** Truthiness of a number: [0] is falsy. *)
Definition truthy_number (n : Z) : bool := negb (n =? 0).

(** Truthiness of a string: the empty string is falsy. *)
Definition truthy_string (s : string) : bool :=
  match s with EmptyString => false | String _ _ => true end.

Definition truthy_text (s : text) : bool :=
  match s with [] => false | _ :: _ => true end.

(** The quotient of two numbers is an IEEE 754 binary64 value: 53 bits of
    precision, exponents up to 1024, rounding to nearest, ties to even. *)
Definition double : Type := spec_float.

(** An integer as a number. *)
Definition double_of_Z (z : Z) : double := binary_normalize 53 1024 z 0 false.

(** [x / y] and [x - y] on numbers. *)
Definition double_div : double → double → double := SFdiv 53 1024.
Definition double_sub : double → double → double := SFsub 53 1024.

(** What [Array.prototype.sort] makes of the number a comparator returns:
    the value itself, [NaN] counting as [0]; of an infinity only the sign
    matters. *)
Definition comparator_result (x : double) : Q :=
  match x with
  | S754_zero _ | S754_nan => 0
  | S754_infinity s => if s then (-1) else 1
  | S754_finite s m e => inject_Z (cond_Zopp s (Z.pos m)) * Qpower 2 e
  end%Q.

(** [Array.prototype.sort(cmp)]: a stable sort; [x] goes before the first
    [y] of the already sorted rest with [cmp x y <= 0]. *)
Section ArraySort.
Context {A : Type} (cmp : A → A → Q).

Fixpoint sort_insert (x : A) (l : list A) : list A :=
  match l with
  | [] => [x]
  | y :: l' => if Qle_bool (cmp x y) 0 then x :: l else y :: sort_insert x l'
  end.

Definition array_sort (l : list A) : list A := foldr sort_insert [] l.

(** The order the comparator stands for: [x] may come before [y]. *)
Definition cmp_le (x y : A) : Prop := Qle_bool (cmp x y) 0 = true.
End ArraySort.

(** ** IndexedDB object stores *)

Section ObjectStore.
Context {V : Type} (keyPath : V → string).

(** [store.put(v)]: the key is extracted from the value. *)
Definition os_put (v : V) (s : gmap string V) : gmap string V :=
  <[keyPath v := v]> s.

Definition os_get (k : string) (s : gmap string V) : option V := s !! k.

Definition os_delete (k : string) (s : gmap string V) : gmap string V :=
  delete k s.

(** Every record sits under the key its key path yields. *)
Definition keyed (s : gmap string V) : Prop :=
  ∀ k v, s !! k = Some v → keyPath v = k.

Definition key_le (p q : string * V) : Prop := String.le p.1 q.1.

(** The records of the store in ascending key order. *)
Definition os_entries (s : gmap string V) : list (string * V) :=
  merge_sort key_le (map_to_list s).

(** [store.getAll()] *)
Definition os_getAll (s : gmap string V) : list V := (os_entries s).*2.

(** [store.openCursor()]: the first record, if any. *)
Definition os_openCursor (s : gmap string V) : option (string * V) :=
  head (os_entries s).

(** [cursor.continue()] on a store cursor at key [k]: the first record
    whose key is greater than [k]. *)
Definition os_continue (k : string) (s : gmap string V)
  : option (string * V) :=
  find (λ p, bool_decide (strict String.le k p.1)) (os_entries s).
End ObjectStore.

(** ** services/db.ts *)

(** The database once [upgrade] has run: object stores [files] and
    [categories], both with [keyPath: 'id']. *)
Record DB := mkDB {
  files : gmap string PdfFile.t;
  categories : gmap string Category.t
}.

Definition empty_db : DB := mkDB ∅ ∅.

Definition wf_db (db : DB) : Prop :=
  keyed PdfFile.id (files db) ∧ keyed Category.id (categories db).

Inductive TxMode := readonly | readwrite.

(** [db.transaction('files', mode)] followed by [tx.done]: the body runs on
    the [files] store and its effect is committed as a whole. *)
Definition files_tx {R : Type} (mode : TxMode)
    (body : gmap string PdfFile.t → R * gmap string PdfFile.t) (db : DB)
  : R * DB :=
  let '(r, fs) := body (files db) in
  (r, mkDB (match mode with readonly => files db | readwrite => fs end)
           (categories db)).

Definition addPdf (file : PdfFile.t) (db : DB) : DB :=
  mkDB (os_put PdfFile.id file (files db)) (categories db).

Definition getPdfById (id : string) (db : DB) : option PdfFile.t :=
  os_get id (files db).

(** Lines 72 to 80 of [updatePdfProgress]: what runs between
    [db.transaction('files', 'readwrite')] and [tx.done]. *)
Definition updatePdfProgress_body (id : string) (page : Z)
    (totalPages : option Z) (now : Z) (store : gmap string PdfFile.t)
  : unit * gmap string PdfFile.t :=
  match os_get id store with
  | Some file =>
      let file := PdfFile.set_currentPage page file in
      let file := PdfFile.set_lastReadAt (Some now) file in
      let file :=
        match totalPages with
        | Some n => if truthy_number n then PdfFile.set_totalPages n file
                    else file
        | None => file
        end in
      (tt, os_put PdfFile.id file store)
  | None => (tt, store)
  end.

Definition updatePdfProgress (id : string) (page : Z) (totalPages : option Z)
    (now : Z) (db : DB) : DB :=
  snd (files_tx readwrite (updatePdfProgress_body id page totalPages now) db).

(** Lines 87 to 93 of [updatePdfCategory]. *)
Definition updatePdfCategory_body (id : string) (categoryId : option string)
    (store : gmap string PdfFile.t) : unit * gmap string PdfFile.t :=
  match os_get id store with
  | Some file =>
      (tt, os_put PdfFile.id (PdfFile.set_categoryId categoryId file) store)
  | None => (tt, store)
  end.

Definition updatePdfCategory (id : string) (categoryId : option string)
    (db : DB) : DB :=
  snd (files_tx readwrite (updatePdfCategory_body id categoryId) db).

Definition deletePdf (id : string) (db : DB) : DB :=
  mkDB (os_delete id (files db)) (categories db).

Definition addCategory (category : Category.t) (db : DB) : DB :=
  mkDB (files db) (os_put Category.id category (categories db)).

Definition getCategories (db : DB) : list Category.t :=
  os_getAll (categories db).

(** A transaction whose body is a cursor loop: [None] when the fuel given to
    the loop does not suffice. *)
Definition files_tx_loop {R : Type} (mode : TxMode)
    (body : gmap string PdfFile.t → option (R * gmap string PdfFile.t))
    (db : DB) : option (R * DB) :=
  match body (files db) with
  | Some (r, fs) =>
      Some (r, mkDB (match mode with readonly => files db | readwrite => fs end)
                    (categories db))
  | None => None
  end.

(** The [while (cursor)] loop of [getAllPdfMetadata]. *)
Fixpoint metadata_loop (fuel : nat) (store : gmap string PdfFile.t)
    (cursor : option (string * PdfFile.t)) (results : list PdfMetadata.t)
  : option (list PdfMetadata.t) :=
  match cursor with
  | None => Some results
  | Some (k, value) =>
      match fuel with
      | O => None
      | S fuel' =>
          metadata_loop fuel' store (os_continue k store)
                        (results ++ [omit_blob value])
      end
  end.

(** The comparator [(a, b) => b.addedAt - a.addedAt]. *)
Definition by_addedAt_desc (a b : PdfMetadata.t) : Q :=
  inject_Z (PdfMetadata.addedAt b - PdfMetadata.addedAt a).

Definition getAllPdfMetadata (fuel : nat) (db : DB)
  : option (list PdfMetadata.t) :=
  fst <$> files_tx_loop readonly (λ store,
    results ← metadata_loop fuel store (os_openCursor store) [];
    Some (array_sort by_addedAt_desc results, store)) db.

(** The index [by-category] (key path [categoryId]) restricted to
    [IDBKeyRange.only(c)]: the records whose [categoryId] is [c], in
    ascending primary-key order.  A record whose [categoryId] is [null] has
    no entry in the index. *)
Definition in_category (c : string) (p : string * PdfFile.t) : bool :=
  bool_decide (PdfFile.categoryId p.2 = Some c).

Definition index_openCursor (c : string) (store : gmap string PdfFile.t)
  : option (string * PdfFile.t) :=
  find (in_category c) (os_entries store).

(** [cursor.continue()] on an index cursor at primary key [k]. *)
Definition index_continue (c k : string) (store : gmap string PdfFile.t)
  : option (string * PdfFile.t) :=
  find (λ p, in_category c p && bool_decide (strict String.le k p.1))
       (os_entries store).

(** [cursor.update(value)]: stores [value] at the cursor's primary key (the
    value keeps the key it was read with: the loop below only assigns
    [categoryId]). *)
Definition cursor_update (k : string) (value : PdfFile.t)
    (store : gmap string PdfFile.t) : gmap string PdfFile.t :=
  <[k := value]> store.

(** The [while (cursor)] loop of [deleteCategory]. *)
Fixpoint uncategorize_loop (fuel : nat) (c : string)
    (store : gmap string PdfFile.t) (cursor : option (string * PdfFile.t))
  : option (gmap string PdfFile.t) :=
  match cursor with
  | None => Some store
  | Some (k, value) =>
      match fuel with
      | O => None
      | S fuel' =>
          let update := PdfFile.set_categoryId None value in
          let store := cursor_update k update store in
          uncategorize_loop fuel' c store (index_continue c k store)
      end
  end.

(** Lines 119 to 126 of [deleteCategory]: what runs between
    [db.transaction('files', 'readwrite')] and [tx.done]. *)
Definition deleteCategory_sweep (fuel : nat) (id : string)
    (store : gmap string PdfFile.t) : option (unit * gmap string PdfFile.t) :=
  store' ← uncategorize_loop fuel id store (index_openCursor id store);
  Some (tt, store').

Definition deleteCategory (fuel : nat) (id : string) (db : DB) : option DB :=
  let db := mkDB (files db) (os_delete id (categories db)) in
  snd <$> files_tx_loop readwrite (deleteCategory_sweep fuel id) db.

(** What the cascade is meant to do to one record. *)
Definition uncategorize (c : string) (f : PdfFile.t) : PdfFile.t :=
  if decide (PdfFile.categoryId f = Some c)
  then PdfFile.set_categoryId None f else f.

(** ** Calls and transactions

    A call of the module reaches the database through transactions.
    [db.transaction(store, mode)] opens one, which lasts until [tx.done]; a
    request made on the connection itself ([db.put], [db.get],
    [db.delete], [db.getAll]) is a transaction of its own.  The engine runs
    a transaction as a whole: nothing of another call happens between its
    requests.  Between two transactions of one call the transactions of
    other calls can run.

    A call is the tree of the transactions it opens: each node carries the
    store, the mode and the body, and continues with the body's result. *)

Inductive StoreName := files_store | categories_store.

Inductive Async (R : Type) : Type :=
  | Return (r : R)
  | FilesTx {A : Type} (mode : TxMode)
      (body : gmap string PdfFile.t → option (A * gmap string PdfFile.t))
      (k : A → Async R)
  | CategoriesTx {A : Type} (mode : TxMode)
      (body : gmap string Category.t → option (A * gmap string Category.t))
      (k : A → Async R).
Arguments Return {R} r.
Arguments FilesTx {R A} mode body k.
Arguments CategoriesTx {R A} mode body k.

(** A transaction on [categories] alone. *)
Definition categories_tx_loop {R : Type} (mode : TxMode)
    (body : gmap string Category.t → option (R * gmap string Category.t))
    (db : DB) : option (R * DB) :=
  match body (categories db) with
  | Some (r, cs) =>
      Some (r, mkDB (files db)
                    (match mode with readonly => categories db
                                   | readwrite => cs end))
  | None => None
  end.

(** One step of the engine on a call: the call's next transaction runs and
    commits.  The step is labelled with the store and the mode of that
    transaction.  A call that has returned takes no step, and neither does
    one whose cursor loop has too little fuel. *)
Definition task_step {R : Type} (t : Async R) (db : DB)
  : option (StoreName * TxMode * Async R * DB) :=
  match t with
  | Return _ => None
  | FilesTx mode body k =>
      match files_tx_loop mode body db with
      | Some (a, db') => Some (files_store, mode, k a, db')
      | None => None
      end
  | CategoriesTx mode body k =>
      match categories_tx_loop mode body db with
      | Some (a, db') => Some (categories_store, mode, k a, db')
      | None => None
      end
  end.

(** A call that runs alone, for at most [n] transactions. *)
Fixpoint task_run {R : Type} (n : nat) (t : Async R) (db : DB)
  : option (R * DB) :=
  match t with
  | Return r => Some (r, db)
  | _ =>
      match n with
      | O => None
      | S n' =>
          match task_step t db with
          | Some (_, _, t', db') => task_run n' t' db'
          | None => None
          end
      end
  end.

(** The calls of services/db.ts that write. *)

(** [addPdf], line 39: [db.put('files', file)]. *)
Definition addPdf_call (file : PdfFile.t) : Async unit :=
  FilesTx readwrite (λ store, Some (tt, os_put PdfFile.id file store))
          (λ _, Return tt).

(** [updatePdfProgress], lines 71 to 81. *)
Definition updatePdfProgress_call (id : string) (page : Z)
    (totalPages : option Z) (now : Z) : Async unit :=
  FilesTx readwrite
          (λ store, Some (updatePdfProgress_body id page totalPages now store))
          (λ _, Return tt).

(** [updatePdfCategory], lines 86 to 94. *)
Definition updatePdfCategory_call (id : string) (categoryId : option string)
  : Async unit :=
  FilesTx readwrite
          (λ store, Some (updatePdfCategory_body id categoryId store))
          (λ _, Return tt).

(** [deletePdf], line 99: [db.delete('files', id)]. *)
Definition deletePdf_call (id : string) : Async unit :=
  FilesTx readwrite (λ store, Some (tt, os_delete id store)) (λ _, Return tt).

(** [addCategory], line 105: [db.put('categories', category)]. *)
Definition addCategory_call (category : Category.t) : Async unit :=
  CategoriesTx readwrite
               (λ store, Some (tt, os_put Category.id category store))
               (λ _, Return tt).

(** [deleteCategory], lines 117 to 127: the transaction on [files] that
    the call opens once the category record is deleted. *)
Definition deleteCategory_rest (fuel : nat) (id : string) : Async unit :=
  FilesTx readwrite (deleteCategory_sweep fuel id) (λ _, Return tt).

(** [deleteCategory]: [await db.delete('categories', id)] on line 115 is
    committed before the transaction of line 117 is opened. *)
Definition deleteCategory_call (fuel : nat) (id : string) : Async unit :=
  CategoriesTx readwrite (λ store, Some (tt, os_delete id store))
               (λ _, deleteCategory_rest fuel id).

(** ** String methods used by the shell *)

(** The code units [String.prototype.trim] strips, [WhiteSpace] and
    [LineTerminator]: TAB, LF, VT, FF, CR, SP, NBSP, U+1680, U+2000 to
    U+200A, LS, PS, U+202F, U+205F, U+3000 and U+FEFF. *)
Definition is_white_space (c : N) : bool :=
  ((9 <=? c) && (c <=? 13) || (c =? 32) || (c =? 160) || (c =? 5760)
   || (8192 <=? c) && (c <=? 8202) || (c =? 8232) || (c =? 8233)
   || (c =? 8239) || (c =? 8287) || (c =? 12288) || (c =? 65279))%N.

Fixpoint trimStart (s : text) : text :=
  match s with
  | [] => []
  | a :: s' => if is_white_space a then trimStart s' else s
  end.

Fixpoint trimEnd (s : text) : text :=
  match s with
  | [] => []
  | a :: s' =>
      match trimEnd s' with
      | [] => if is_white_space a then [] else [a]
      | t => a :: t
      end
  end.

(** [String.prototype.trim] *)
Definition trim (s : text) : text := trimEnd (trimStart s).

(** [s.startsWith(q)] *)
Fixpoint starts_with (q s : text) : bool :=
  match q, s with
  | [], _ => true
  | _ :: _, [] => false
  | a :: q', b :: s' => (a =? b)%N && starts_with q' s'
  end.

(** [s.includes(q)] *)
Fixpoint includes (q s : text) : bool :=
  starts_with q s ||
  match s with
  | [] => false
  | _ :: s' => includes q s'
  end.

(** A text made of white space only (the empty text included). *)
Fixpoint blank (s : text) : Prop :=
  match s with
  | [] => True
  | a :: s' => is_white_space a = true ∧ blank s'
  end.

(** ** App.tsx and components/Sidebar.tsx *)

Inductive SortOption :=
  | added_desc | added_asc | name_asc | name_desc | size_desc | progress_desc.

Record SidebarState := mkSidebar {
  isAdding : bool;
  newCategoryName : text
}.

Record AppState := mkApp {
  app_files : list PdfMetadata.t;
  app_categories : list Category.t;
  activeCategoryId : option string;
  searchQuery : text;
  sortBy : SortOption
}.

Section Shell.
(** Two platform functions whose results depend on Unicode tables and on
    the locale: [String.prototype.toLowerCase] and
    [String.prototype.localeCompare]. *)
Variable toLowerCase : text → text.
Variable localeCompare : text → text → Z.

(** [a.totalPages > 0 ? a.currentPage / a.totalPages : 0] *)
Definition progress (a : PdfMetadata.t) : double :=
  if 0 <? PdfMetadata.totalPages a
  then double_div (double_of_Z (PdfMetadata.currentPage a))
                  (double_of_Z (PdfMetadata.totalPages a))
  else S754_zero false.

(** The comparator handed to [result.sort]. *)
Definition compareFiles (by_ : SortOption) (a b : PdfMetadata.t) : Q :=
  match by_ with
  | added_desc => inject_Z (PdfMetadata.addedAt b - PdfMetadata.addedAt a)
  | added_asc => inject_Z (PdfMetadata.addedAt a - PdfMetadata.addedAt b)
  | name_asc =>
      inject_Z (localeCompare (PdfMetadata.name a) (PdfMetadata.name b))
  | name_desc =>
      inject_Z (localeCompare (PdfMetadata.name b) (PdfMetadata.name a))
  | size_desc => inject_Z (PdfMetadata.size b - PdfMetadata.size a)
  | progress_desc => comparator_result (double_sub (progress b) (progress a))
  end.

(** Truthiness of a [string | null]. *)
Definition truthy_id (c : option string) : bool :=
  match c with Some s => truthy_string s | None => false end.

(** Step 1 of [filteredFiles]: the category filter. *)
Definition categoryFilter (active : option string)
    (result : list PdfMetadata.t) : list PdfMetadata.t :=
  if bool_decide (active = Some "uncategorized") then
    filter (λ f, truthy_id (PdfMetadata.categoryId f) = false) result
  else if truthy_id active && bool_decide (active ≠ Some "all") then
    filter (λ f, PdfMetadata.categoryId f = active) result
  else result.

(** Step 2 of [filteredFiles]: the search filter. *)
Definition searchFilter (query : text) (result : list PdfMetadata.t)
  : list PdfMetadata.t :=
  if truthy_text (trim query) then
    let q := toLowerCase query in
    filter (λ f, includes q (toLowerCase (PdfMetadata.name f)) = true)
           result
  else result.

Definition filteredFiles (st : AppState) : list PdfMetadata.t :=
  let result := app_files st in
  let result := categoryFilter (activeCategoryId st) result in
  let result := searchFilter (searchQuery st) result in
  array_sort (compareFiles (sortBy st)) result.
End Shell.

(** [App.handleAddCategory]; [uuid] and [now] are the results of [uuidv4()]
    and [Date.now()]. *)
Definition handleAddCategory (uuid : string) (now : Z) (name : text)
    (st : AppState * DB) : AppState * DB :=
  let '(app, db) := st in
  let newCat := Category.mk uuid name now in
  let db := addCategory newCat db in
  (mkApp (app_files app) (app_categories app ++ [newCat])
         (activeCategoryId app) (searchQuery app) (sortBy app), db).

(** [Sidebar.handleAddSubmit], with [onAddCategory] bound to
    [App.handleAddCategory]. *)
Definition handleAddSubmit (uuid : string) (now : Z)
    (st : SidebarState * (AppState * DB)) : SidebarState * (AppState * DB) :=
  let '(sb, rest) := st in
  if truthy_text (trim (newCategoryName sb)) then
    let rest := handleAddCategory uuid now (trim (newCategoryName sb)) rest in
    (mkSidebar false [], rest)
  else st.

(** ** Initialization: [getDB] (services/db.ts, lines 16-34)

    The event loop runs one synchronous piece of code at a time.  [getDB]
    contains no [await], so a call to it is one atomic step; the open
    request that [openDB] issues is completed later by the storage engine,
    in a step of its own.  A schedule is any interleaving of such steps. *)
Module Init.
Local Open Scope nat_scope.

Definition DB_VERSION : Z := 1.

(** An object store as the schema records it: name, key path, and the
    indexes (name, key path) created on it. *)
Record StoreSchema := mkStore {
  store_name : string;
  store_keyPath : string;
  store_indexes : list (string * string)
}.

(** The connection a fulfilled [openDB] promise carries: the version and
    the object stores of the database it is connected to. *)
Record Handle := mkHandle {
  h_version : Z;
  h_stores : list StoreSchema
}.

Record World := mkWorld {
  dbPromise : option nat;        (* the module variable; a promise by id *)
  next_promise : nat;            (* promises allocated so far *)
  requests : list (nat * Z);     (* open requests not yet completed *)
  settled : gmap nat Handle;     (* fulfilled promises and their values *)
  version : Z;                   (* stored version, 0: no database yet *)
  schema : list StoreSchema;     (* object stores of the database *)
  upgrades : nat                 (* runs of the [upgrade] callback *)
}.

(** A fresh page on a device that has no database yet. *)
Definition init : World := mkWorld None 0 [] ∅ 0%Z [] 0.

Definition createObjectStore (name keyPath : string)
    (sch : list StoreSchema) : list StoreSchema :=
  sch ++ [mkStore name keyPath []].

Definition createIndex (store name keyPath : string)
    (sch : list StoreSchema) : list StoreSchema :=
  (λ s, if bool_decide (store_name s = store)
        then mkStore (store_name s) (store_keyPath s)
                     (store_indexes s ++ [(name, keyPath)])
        else s) <$> sch.

(** The body of the [upgrade(db)] callback. *)
Definition upgrade (sch : list StoreSchema) : list StoreSchema :=
  let sch := createObjectStore "files" "id" sch in
  let sch := createIndex "files" "by-category" "categoryId" sch in
  let sch := createIndex "files" "by-last-read" "lastReadAt" sch in
  createObjectStore "categories" "id" sch.

(** [openDB(DB_NAME, v, { upgrade })]: allocates a pending promise and
    queues an open request for it. *)
Definition openDB (v : Z) (w : World) : nat * World :=
  let p := next_promise w in
  (p, mkWorld (dbPromise w) (S p) (requests w ++ [(p, v)]) (settled w)
              (version w) (schema w) (upgrades w)).

Definition getDB (w : World) : nat * World :=
  match dbPromise w with
  | Some p => (p, w)
  | None =>
      let '(p, w) := openDB DB_VERSION w in
      (p, mkWorld (Some p) (next_promise w) (requests w) (settled w)
                  (version w) (schema w) (upgrades w))
  end.

(** The engine completes the oldest open request: when the stored version
    is older than the requested one it runs [upgrade] and records the new
    version; then it fulfills the request's promise with a connection. *)
Definition engine_step (w : World) : World :=
  match requests w with
  | [] => w
  | (p, v) :: rest =>
      let upgrading := bool_decide (version w < v)%Z in
      let sch := if upgrading then upgrade (schema w) else schema w in
      let ver := if upgrading then v else version w in
      let ups := if upgrading then S (upgrades w) else upgrades w in
      mkWorld (dbPromise w) (next_promise w) rest
              (<[p := mkHandle ver sch]> (settled w)) ver sch ups
  end.

Inductive Event := CallGetDB | EngineStep.

(** One step of a schedule; the second component collects what each
    [getDB()] call returned, in call order. *)
Definition step (st : World * list nat) (ev : Event) : World * list nat :=
  match ev with
  | CallGetDB => let '(p, w) := getDB st.1 in (w, st.2 ++ [p])
  | EngineStep => (engine_step st.1, st.2)
  end.

Definition run (evs : list Event) : World * list nat :=
  foldl step (init, []) evs.

(** The database a caller expects behind the handle. *)
Definition full_handle : Handle :=
  mkHandle 1 [mkStore "files" "id" [("by-category", "categoryId");
                                     ("by-last-read", "lastReadAt")];
              mkStore "categories" "id" []].

(** After the first [getDB()]: one promise, one open request, nothing
    created yet. *)
Definition pending_world : World :=
  mkWorld (Some 0) 1 [(0, DB_VERSION)] ∅ 0%Z [] 0.

(** After the engine has completed that request. *)
Definition open_world : World :=
  mkWorld (Some 0) 1 [] (<[0 := full_handle]> ∅) DB_VERSION
          (h_stores full_handle) 1.

(** At least one [getDB()] has been called, and every call returned
    promise [0]. *)
Definition started (st : World * list nat) : Prop :=
  (st.1 = pending_world ∨ st.1 = open_world) ∧
  st.2 ≠ [] ∧ Forall (λ p, p = 0) st.2.
End Init.

(** ** Reachable states of the store *)

Inductive Op :=
  | OpAddPdf (file : PdfFile.t)
  | OpUpdatePdfCategory (id : string) (categoryId : option string)
  | OpDeletePdf (id : string)
  | OpAddCategory (category : Category.t)
  | OpDeleteCategory (fuel : nat) (id : string)
  | OpUpdatePdfProgress (id : string) (page : Z) (totalPages : option Z)
                        (now : Z).

Definition apply_op (op : Op) (db : DB) : option DB :=
  match op with
  | OpAddPdf file => Some (addPdf file db)
  | OpUpdatePdfCategory id c => Some (updatePdfCategory id c db)
  | OpDeletePdf id => Some (deletePdf id db)
  | OpAddCategory category => Some (addCategory category db)
  | OpDeleteCategory fuel id => deleteCategory fuel id db
  | OpUpdatePdfProgress id page total now =>
      Some (updatePdfProgress id page total now db)
  end.

(** States reachable from the freshly created database. *)
Inductive reachable : DB → Prop :=
  | reachable_init : reachable empty_db
  | reachable_step db op db' :
      reachable db → apply_op op db = Some db' → reachable db'.

(** Every document's [categoryId] is [null] or the id of a stored
    category. *)
Definition referential_integrity (db : DB) : Prop :=
  ∀ k f c, files db !! k = Some f → PdfFile.categoryId f = Some c →
           ∃ cat, cat ∈ getCategories db ∧ Category.id cat = c.

(** A category reference the caller has checked: [null], or the id of a
    category that is in the store. *)
Definition known_category (db : DB) (c : option string) : Prop :=
  match c with
  | None => True
  | Some c => is_Some (categories db !! c)
  end.

(** The store trusts the category reference of [addPdf] and
    [updatePdfCategory]; [checked] says the caller did its part. *)
Definition checked (op : Op) (db : DB) : Prop :=
  match op with
  | OpAddPdf file => known_category db (PdfFile.categoryId file)
  | OpUpdatePdfCategory _ c => known_category db c
  | _ => True
  end.

(** The call an operation stands for. *)
Definition call (op : Op) : Async unit :=
  match op with
  | OpAddPdf file => addPdf_call file
  | OpUpdatePdfCategory id c => updatePdfCategory_call id c
  | OpDeletePdf id => deletePdf_call id
  | OpAddCategory category => addCategory_call category
  | OpDeleteCategory fuel id => deleteCategory_call fuel id
  | OpUpdatePdfProgress id page total now =>
      updatePdfProgress_call id page total now
  end.

(** The database together with the calls in flight: each with the
    operation it was made for and what is left of it to run. *)
Record Sys := mkSys {
  sys_db : DB;
  in_flight : list (Op * Async unit)
}.

(** What is left in flight once call [i] has taken a step to [t']. *)
Definition after_step (i : nat) (op : Op) (t' : Async unit)
    (ts : list (Op * Async unit)) : list (Op * Async unit) :=
  match t' with
  | Return _ => delete i ts
  | _ => <[i := (op, t')]> ts
  end.

(** A caller makes a call, or the engine commits the next transaction of
    a call in flight; the calls in flight take their steps in any order.
    A write of a category reference is [checked] at the moment it is
    committed. *)
Inductive sys_step : Sys → Sys → Prop :=
  | sys_call op db ts :
      sys_step (mkSys db ts) (mkSys db (ts ++ [(op, call op)]))
  | sys_commit i op t lbl t' db db' ts :
      ts !! i = Some (op, t) →
      checked op db →
      task_step t db = Some (lbl, t', db') →
      sys_step (mkSys db ts) (mkSys db' (after_step i op t' ts)).

(** States reachable from the freshly created database with no call in
    flight. *)
Inductive sys_reachable : Sys → Prop :=
  | sys_reachable_init : sys_reachable (mkSys empty_db [])
  | sys_reachable_step s s' :
      sys_reachable s → sys_step s s' → sys_reachable s'.

(** A [deleteCategory c] is between its two transactions: the category
    record is deleted, the sweep over the documents is still to run. *)
Definition sweep_pending (s : Sys) (c : string) : Prop :=
  ∃ fuel, (OpDeleteCategory fuel c, deleteCategory_rest fuel c) ∈ in_flight s.

(** What [updatePdfProgress] writes back. *)
Definition progressed (page : Z) (total : option Z) (now : Z)
    (file : PdfFile.t) : PdfFile.t :=
  PdfFile.mk (PdfFile.id file) (PdfFile.name file) (PdfFile.categoryId file)
    (PdfFile.blob file) (PdfFile.addedAt file) (Some now) page
    (match total with
     | Some n => if truthy_number n then n else PdfFile.totalPages file
     | None => PdfFile.totalPages file
     end)
    (PdfFile.size file).

(** ** App.tsx: the handlers of the library view *)

Inductive ViewState := library | reader.

(** The component state of [App] next to the part in [AppState]. *)
Record Shell := mkShell {
  app : AppState;
  viewState : ViewState;
  activePdfId : option string;
  readerFile : option PdfFile.t;
  uploading : bool;
  loading : bool
}.

Definition set_files (fs : list PdfMetadata.t) (sh : Shell) : Shell :=
  mkShell (mkApp fs (app_categories (app sh)) (activeCategoryId (app sh))
                 (searchQuery (app sh)) (sortBy (app sh)))
          (viewState sh) (activePdfId sh) (readerFile sh) (uploading sh)
          (loading sh).

Definition set_categories (cs : list Category.t) (sh : Shell) : Shell :=
  mkShell (mkApp (app_files (app sh)) cs (activeCategoryId (app sh))
                 (searchQuery (app sh)) (sortBy (app sh)))
          (viewState sh) (activePdfId sh) (readerFile sh) (uploading sh)
          (loading sh).

Definition set_activeCategoryId (c : option string) (sh : Shell) : Shell :=
  mkShell (mkApp (app_files (app sh)) (app_categories (app sh)) c
                 (searchQuery (app sh)) (sortBy (app sh)))
          (viewState sh) (activePdfId sh) (readerFile sh) (uploading sh)
          (loading sh).

Definition set_uploading (b : bool) (sh : Shell) : Shell :=
  mkShell (app sh) (viewState sh) (activePdfId sh) (readerFile sh) b
          (loading sh).

Definition set_loading (b : bool) (sh : Shell) : Shell :=
  mkShell (app sh) (viewState sh) (activePdfId sh) (readerFile sh)
          (uploading sh) b.

(** A [File] picked in the file chooser: its name, its MIME type and its
    bytes; [file.size] is the number of bytes. *)
Record File := mkFile {
  file_name : text;
  file_type : string;
  file_bytes : list Byte.byte
}.

Definition file_size (f : File) : Z := Z.of_nat (length (file_bytes f)).

(** The blob stored for a picked file: its type and its bytes. *)
Definition file_blob (f : File) : Blob := mkBlob (file_type f) (file_bytes f).

(** [(activeCategoryId !== 'all' && activeCategoryId !== 'uncategorized')
    ? activeCategoryId : null] *)
Definition upload_category (active : option string) : option string :=
  if bool_decide (active ≠ Some "all")
     && bool_decide (active ≠ Some "uncategorized")
  then active else None.

(** The record [handleFileUpload] builds for an accepted file; [uuid] and
    [now] are the results of [uuidv4()] and [Date.now()]. *)
Definition new_pdf (active : option string) (file : File) (uuid : string)
    (now : Z) : PdfFile.t :=
  PdfFile.mk uuid (file_name file) (upload_category active) (file_blob file)
             now None 1 0 (file_size file).

(** One turn of the [for (const file of newFiles)] loop.  Each picked file
    comes with the [uuid] and [now] it gets if it is accepted. *)
Definition upload_one (active : option string)
    (st : Shell * DB) (pick : File * (string * Z)) : Shell * DB :=
  let '(file, (uuid, now)) := pick in
  if bool_decide (file_type file ≠ "application/pdf") then st
  else
    let newPdf := new_pdf active file uuid now in
    let db := addPdf newPdf st.2 in
    (set_files (omit_blob newPdf :: app_files (app st.1)) st.1, db).

Definition handleFileUpload (picks : list (File * (string * Z)))
    (st : Shell * DB) : Shell * DB :=
  match picks with
  | [] => st
  | _ =>
      let active := activeCategoryId (app st.1) in
      let st := (set_uploading true st.1, st.2) in
      let st := foldl (upload_one active) st picks in
      (set_uploading false st.1, st.2)
  end.

Definition handleOpenPdf (id : string) (st : Shell * DB) : Shell * DB :=
  match getPdfById id st.2 with
  | Some fullPdf =>
      (mkShell (app st.1) reader (Some id) (Some fullPdf) (uploading st.1)
               (loading st.1), st.2)
  | None => st
  end.

Definition handleCloseReader (fuel : nat) (st : Shell * DB)
  : option (Shell * DB) :=
  let sh := mkShell (app st.1) library None None (uploading st.1)
                    (loading st.1) in
  freshFiles ← getAllPdfMetadata fuel st.2;
  Some (set_files freshFiles sh, st.2).

Definition deletePdfById (id : string) (st : Shell * DB) : Shell * DB :=
  let db := deletePdf id st.2 in
  (set_files (filter (λ f, PdfMetadata.id f ≠ id) (app_files (app st.1))) st.1,
   db).

(** [confirmed] is the answer to the [confirm(...)] dialog. *)
Definition handleDeletePdf (confirmed : bool) (id : string)
    (st : Shell * DB) : Shell * DB :=
  if confirmed then deletePdfById id st else st.

Definition handleReaderDelete (fuel : nat) (st : Shell * DB)
  : option (Shell * DB) :=
  match readerFile st.1 with
  | Some rf => handleCloseReader fuel (deletePdfById (PdfFile.id rf) st)
  | None => Some st
  end.

Definition handleDeleteCategory (fuel : nat) (confirmed : bool) (id : string)
    (st : Shell * DB) : option (Shell * DB) :=
  if confirmed then
    db ← deleteCategory fuel id st.2;
    let sh := set_categories
                (filter (λ c, Category.id c ≠ id) (app_categories (app st.1)))
                st.1 in
    freshFiles ← getAllPdfMetadata fuel db;
    let sh := set_files freshFiles sh in
    let sh := if bool_decide (activeCategoryId (app st.1) = Some id)
              then set_activeCategoryId (Some "all") sh else sh in
    Some (sh, db)
  else Some st.

(** [{ ...f, categoryId: catId }] *)
Definition with_categoryId (c : option string) (f : PdfMetadata.t)
  : PdfMetadata.t :=
  PdfMetadata.mk (PdfMetadata.id f) (PdfMetadata.name f) c
    (PdfMetadata.addedAt f) (PdfMetadata.lastReadAt f)
    (PdfMetadata.currentPage f) (PdfMetadata.totalPages f)
    (PdfMetadata.size f).

(** [handleMoveToCategory] (components/Reader.tsx, lines 424-429). *)
Definition handleMoveToCategory (pdfId : string) (catId : option string)
    (st : Shell * DB) : Shell * DB :=
  let db := updatePdfCategory pdfId catId st.2 in
  (set_files ((λ f, if bool_decide (PdfMetadata.id f = pdfId)
                    then with_categoryId catId f else f)
              <$> app_files (app st.1)) st.1,
   db).

(** The initial-load effect: both lists are read from the database, then
    [loading] is cleared. *)
Definition initialLoad (fuel : nat) (st : Shell * DB) : option (Shell * DB) :=
  loadedFiles ← getAllPdfMetadata fuel st.2;
  let loadedCats := getCategories st.2 in
  Some (set_loading false (set_categories loadedCats
                             (set_files loadedFiles st.1)), st.2).

(** [App.handleAddCategory] on the whole component state. *)
Definition shell_addCategory (uuid : string) (now : Z) (name : text)
    (st : Shell * DB) : Shell * DB :=
  let '(a, db) := handleAddCategory uuid now name (app st.1, st.2) in
  (mkShell a (viewState st.1) (activePdfId st.1) (readerFile st.1)
           (uploading st.1) (loading st.1), db).

(** The lists shown by the shell agree with the database: the same
    records, each as often. *)
Definition files_in_sync (st : Shell * DB) : Prop :=
  app_files (app st.1) ≡ₚ omit_blob <$> (map_to_list (files st.2)).*2.

Definition categories_in_sync (st : Shell * DB) : Prop :=
  app_categories (app st.1) ≡ₚ (map_to_list (categories st.2)).*2.

(** ** components/Reader.tsx *)

Record ReaderState := mkReader {
  rd_file : PdfFile.t;          (* the [file] prop *)
  numPages : Z;
  scale : Q;
  errorMsg : option string;
  activePage : Z
}.

(** [x || d] on numbers. *)
Definition number_or (x d : Z) : Z := if truthy_number x then x else d.

(** The initial state: [useState(file.totalPages || 0)], [useState(1.0)],
    [useState(file.currentPage || 1)]. *)
Definition reader_init (file : PdfFile.t) : ReaderState :=
  mkReader file (number_or (PdfFile.totalPages file) 0) 1%Q None
           (number_or (PdfFile.currentPage file) 1).

(** The zoom buttons: [Math.max(0.5, s - 0.25)] and
    [Math.min(3.0, s + 0.25)]. *)
Definition zoomOut (s : Q) : Q := Qmax (1 # 2) (s - (1 # 4)).
Definition zoomIn (s : Q) : Q := Qmin 3 (s + (1 # 4)).

Inductive Zoom := ZoomIn | ZoomOut.

Definition zoom (s : Q) (z : Zoom) : Q :=
  match z with ZoomIn => zoomIn s | ZoomOut => zoomOut s end.

(** The intersection observer reports page [pageNum] in the middle of the
    viewport. *)
Definition observePage (pageNum : Z) (rd : ReaderState) : ReaderState :=
  mkReader (rd_file rd) (numPages rd) (scale rd) (errorMsg rd) pageNum.

(** The body of the one-second timer of the progress effect. *)
Definition syncProgress (now : Z) (rd : ReaderState) (db : DB) : DB :=
  if 0 <? activePage rd then
    updatePdfProgress (PdfFile.id (rd_file rd)) (activePage rd)
                      (Some (numPages rd)) now db
  else db.

Definition onDocumentLoadSuccess (n : Z) (now : Z)
    (st : ReaderState * DB) : ReaderState * DB :=
  let rd := mkReader (rd_file st.1) n (scale st.1) None (activePage st.1) in
  if bool_decide (PdfFile.totalPages (rd_file st.1) ≠ n) then
    (rd, updatePdfProgress (PdfFile.id (rd_file st.1)) (activePage st.1)
           (Some n) now st.2)
  else (rd, st.2).

Definition onDocumentLoadError (message : string) (rd : ReaderState)
  : ReaderState :=
  mkReader (rd_file rd) (numPages rd) (scale rd) (Some message)
           (activePage rd).

(** ** A page reload: the module variable is reset, the database stays *)

Definition returning_world : Init.World :=
  Init.mkWorld None 0 [] ∅ Init.DB_VERSION (Init.h_stores Init.full_handle) 0.

Definition run_from (w : Init.World) (evs : list Init.Event)
  : Init.World * list nat :=
  foldl Init.step (w, []) evs.

(** The order of the metadata listing: newer first, and among documents
    added at the same time the smaller id first. *)
Definition listing_order (a b : PdfMetadata.t) : Prop :=
  PdfMetadata.addedAt b < PdfMetadata.addedAt a ∨
  (PdfMetadata.addedAt a = PdfMetadata.addedAt b ∧
   strict String.le (PdfMetadata.id a) (PdfMetadata.id b)).

(** The picked files that [handleFileUpload] accepts. *)
Definition accepted (picks : list (File * (string * Z)))
  : list (File * (string * Z)) :=
  filter (λ p, file_type p.1 = "application/pdf") picks.

(** ** Ids

    The shell keeps the selector in [activeCategoryId]: ['all'],
    ['uncategorized'], or the id of a collection (Sidebar.tsx, line 7).  A
    collection id is made by [uuidv4()] (App.tsx, line 200). *)

(** A string that can be a collection id: not empty, and neither of the
    two selector strings. *)
Definition collection_id (c : string) : Prop :=
  c ≠ "" ∧ c ≠ "all" ∧ c ≠ "uncategorized".

Definition is_hex_digit (a : Ascii.ascii) : bool :=
  let n := Ascii.N_of_ascii a in
  ((48 <=? n) && (n <=? 57) || (97 <=? n) && (n <=? 102))%N.

(** The format of a version-4 UUID as [uuidv4()] prints it: 36 characters,
    hyphens at positions 8, 13, 18 and 23, the digit 4 at position 14 and
    lower-case hexadecimal digits elsewhere. *)
Fixpoint uuid_chars (i : nat) (l : list Ascii.ascii) : bool :=
  match l with
  | [] => true
  | a :: l' =>
      (if bool_decide (i = 8 ∨ i = 13 ∨ i = 18 ∨ i = 23)%nat
       then (Ascii.N_of_ascii a =? 45)%N
       else if bool_decide (i = 14)%nat then (Ascii.N_of_ascii a =? 52)%N
       else is_hex_digit a)
      && uuid_chars (S i) l'
  end.

Definition uuid_format (s : string) : bool :=
  bool_decide (String.length s = 36%nat)
  && uuid_chars 0 (String.list_ascii_of_string s).

(** ** Sample data *)

Definition ex_blob : Blob :=
  mkBlob "application/pdf" [Byte.x25; Byte.x50; Byte.x44; Byte.x46].

Definition ex_cat : Category.t := Category.mk "c1" (txt "Novels") 5.

Definition ex_file1 : PdfFile.t :=
  PdfFile.mk "f1" (txt "a.pdf") (Some "c1") ex_blob 10 None 1 0 4.
Definition ex_file2 : PdfFile.t :=
  PdfFile.mk "f2" (txt "b.pdf") (Some "c1") ex_blob 30 None 1 0 4.
Definition ex_file3 : PdfFile.t :=
  PdfFile.mk "f3" (txt "c.pdf") None ex_blob 20 (Some 25) 7 9 4.

Definition ex_db : DB :=
  addPdf ex_file3 (addPdf ex_file2 (addPdf ex_file1
    (addCategory ex_cat empty_db))).

Definition ex_picks : list (File * (string * Z)) :=
  [(mkFile (txt "notes.txt") "text/plain" [Byte.x68; Byte.x69], ("u0", 40));
   (mkFile (txt "d.pdf") "application/pdf" [Byte.x25; Byte.x50], ("u1", 41));
   (mkFile (txt "e.pdf") "application/pdf" [Byte.x25], ("u2", 42))].

Definition ex_shell : Shell :=
  mkShell (mkApp (omit_blob <$> [ex_file1; ex_file2; ex_file3]) [ex_cat]
                 (Some "c1") [] added_desc)
          library None None false false.

(** * Properties *)

(** ** Records and key paths *)

Lemma DB_eta db : mkDB (files db) (categories db) = db.
Proof. by destruct db. Qed.

Lemma keyed_put {V} (keyPath : V → string) v s :
  keyed keyPath s → keyed keyPath (os_put keyPath v s).
Proof.
  intros Hs k w. unfold os_put. rewrite lookup_insert.
  case_decide; [naive_solver | apply Hs].
Qed.

Lemma keyed_delete {V} (keyPath : V → string) k s :
  keyed keyPath s → keyed keyPath (os_delete k s).
Proof.
  intros Hs k' w. unfold os_delete. rewrite lookup_delete.
  case_decide; [done | apply Hs].
Qed.

Lemma keyed_empty {V} (keyPath : V → string) : keyed keyPath ∅.
Proof. intros k v. by rewrite lookup_empty. Qed.

Lemma updatePdfProgress_files db id page total now :
  files (updatePdfProgress id page total now db) =
  match files db !! id with
  | Some file => <[PdfFile.id file := progressed page total now file]> (files db)
  | None => files db
  end.
Proof.
  unfold updatePdfProgress, updatePdfProgress_body, files_tx, os_get, os_put.
  destruct (files db !! id) as [file|] eqn:E; [|done].
  destruct total as [n|]; [destruct (truthy_number n) eqn:T|];
    unfold progressed; simpl; rewrite ?T; done.
Qed.

Lemma updatePdfProgress_categories db id page total now :
  categories (updatePdfProgress id page total now db) = categories db.
Proof.
  unfold updatePdfProgress, updatePdfProgress_body, files_tx.
  by destruct (os_get id (files db)).
Qed.

Lemma updatePdfCategory_files db id c :
  files (updatePdfCategory id c db) =
  match files db !! id with
  | Some file => <[PdfFile.id file := PdfFile.set_categoryId c file]> (files db)
  | None => files db
  end.
Proof.
  unfold updatePdfCategory, updatePdfCategory_body, files_tx, os_get, os_put.
  by destruct (files db !! id).
Qed.

Lemma updatePdfCategory_categories db id c :
  categories (updatePdfCategory id c db) = categories db.
Proof.
  unfold updatePdfCategory, updatePdfCategory_body, files_tx.
  by destruct (os_get id (files db)).
Qed.

Lemma DB_ext db1 db2 :
  files db1 = files db2 → categories db1 = categories db2 → db1 = db2.
Proof. destruct db1, db2; simpl; congruence. Qed.

Lemma updatePdfProgress_lookup db id file page total now :
  keyed PdfFile.id (files db) → files db !! id = Some file →
  files (updatePdfProgress id page total now db) !! id
  = Some (progressed page total now file).
Proof.
  intros Hk Hf. rewrite updatePdfProgress_files, Hf.
  rewrite (Hk _ _ Hf). apply lookup_insert_eq.
Qed.

Lemma updatePdfProgress_keyed db id page total now :
  keyed PdfFile.id (files db) →
  keyed PdfFile.id (files (updatePdfProgress id page total now db)).
Proof.
  intros Hk. rewrite updatePdfProgress_files.
  destruct (files db !! id) as [file|] eqn:Hf; [|done].
  apply (keyed_put PdfFile.id (progressed page total now file)), Hk.
Qed.

Lemma updatePdfCategory_keyed db id c :
  keyed PdfFile.id (files db) →
  keyed PdfFile.id (files (updatePdfCategory id c db)).
Proof.
  intros Hk. rewrite updatePdfCategory_files.
  destruct (files db !! id) as [file|] eqn:Hf; [|done].
  apply (keyed_put PdfFile.id (PdfFile.set_categoryId c file)), Hk.
Qed.

Lemma ex_db_wf : wf_db ex_db.
Proof.
  split; simpl.
  - repeat apply keyed_put. apply keyed_empty.
  - apply keyed_put, keyed_empty.
Qed.

(** ** Documents: create, read, update, delete *)

(** C1. Round trip: [addPdf d] followed by [getPdfById d.id] yields [d]
    itself, every field included, the blob with its bytes among them. *)
Theorem addPdf_getPdfById (d : PdfFile.t) (db : DB) :
  getPdfById (PdfFile.id d) (addPdf d db) = Some d.
Proof. unfold getPdfById, addPdf, os_get, os_put; simpl. apply lookup_insert_eq. Qed.

Lemma updatePdfProgress_call_step id page total now db :
  task_step (updatePdfProgress_call id page total now) db
  = Some (files_store, readwrite, Return tt,
          updatePdfProgress id page total now db).
Proof.
  unfold task_step, updatePdfProgress_call, files_tx_loop, updatePdfProgress,
    files_tx.
  by destruct (updatePdfProgress_body id page total now (files db)).
Qed.

(** C4. On a stored document [updatePdfProgress id page total now] sets
    [currentPage] to [page] and [lastReadAt] to [now]; it overwrites
    [totalPages] exactly when [total] is supplied and not [0], and keeps the
    stored value otherwise.  A second call wins over the first whatever the
    two positions are, so the cursor can move backward.  The read and the
    write are one transaction: the first transaction the call opens is a
    [readwrite] transaction on [files], when it commits the database holds
    the updated record, and the call has returned, so it opens no other. *)
Theorem updatePdfProgress_spec (db : DB) (id : string) (file : PdfFile.t)
    (page : Z) (total : option Z) (now : Z) :
  keyed PdfFile.id (files db) →
  files db !! id = Some file →
  (∃ file',
    getPdfById id (updatePdfProgress id page total now db) = Some file' ∧
    PdfFile.currentPage file' = page ∧
    PdfFile.lastReadAt file' = Some now ∧
    (∀ n, total = Some n → n ≠ 0 → PdfFile.totalPages file' = n) ∧
    (total = None ∨ total = Some 0 →
     PdfFile.totalPages file' = PdfFile.totalPages file) ∧
    (∀ page2 total2 now2, ∃ file'',
       getPdfById id (updatePdfProgress id page2 total2 now2
                        (updatePdfProgress id page total now db))
       = Some file'' ∧
       PdfFile.currentPage file'' = page2 ∧
       PdfFile.lastReadAt file'' = Some now2)) ∧
  task_step (updatePdfProgress_call id page total now) db
  = Some (files_store, readwrite, Return tt,
          updatePdfProgress id page total now db).
Proof.
  intros Hk Hf. split; [|apply updatePdfProgress_call_step].
  exists (progressed page total now file).
  pose proof (updatePdfProgress_lookup db id file page total now Hk Hf) as H1.
  split; [exact H1|]. split; [done|]. split; [done|].
  split; [|split].
  - intros n -> Hn. simpl. unfold truthy_number.
    destruct (Z.eqb_spec n 0); [done | done].
  - intros [-> | ->]; done.
  - intros page2 total2 now2.
    exists (progressed page2 total2 now2 (progressed page total now file)).
    split; [|done]. unfold getPdfById, os_get.
    apply updatePdfProgress_lookup; [|exact H1].
    by apply updatePdfProgress_keyed.
Qed.

Lemma updatePdfProgress_spec_witness :
  (∃ file',
    getPdfById "f3" (updatePdfProgress "f3" 5 (Some 0) 99 ex_db) = Some file' ∧
    PdfFile.currentPage file' = 5 ∧
    PdfFile.lastReadAt file' = Some 99 ∧
    (∀ n, Some 0 = Some n → n ≠ 0 → PdfFile.totalPages file' = n) ∧
    (Some 0 = None ∨ Some 0 = Some 0 →
     PdfFile.totalPages file' = PdfFile.totalPages ex_file3) ∧
    (∀ page2 total2 now2, ∃ file'',
       getPdfById "f3" (updatePdfProgress "f3" page2 total2 now2
                        (updatePdfProgress "f3" 5 (Some 0) 99 ex_db))
       = Some file'' ∧
       PdfFile.currentPage file'' = page2 ∧
       PdfFile.lastReadAt file'' = Some now2)) ∧
  task_step (updatePdfProgress_call "f3" 5 (Some 0) 99) ex_db
  = Some (files_store, readwrite, Return tt,
          updatePdfProgress "f3" 5 (Some 0) 99 ex_db).
Proof.
  apply (updatePdfProgress_spec ex_db "f3" ex_file3 5 (Some 0) 99).
  - apply ex_db_wf.
  - vm_compute. reflexivity.
Defined.

(** [deleteCategory], for comparison, takes two transactions: after the
    first the call has not returned. *)
Example deleteCategory_call_steps :
  task_step (deleteCategory_call 3 "c1") ex_db
  = Some (categories_store, readwrite, deleteCategory_rest 3 "c1",
          mkDB (files ex_db) (os_delete "c1" (categories ex_db))) ∧
  task_run 1 (updatePdfProgress_call "f3" 5 None 99) ex_db
  = Some (tt, updatePdfProgress "f3" 5 None 99 ex_db) ∧
  task_run 1 (deleteCategory_call 3 "c1") ex_db = None ∧
  task_run 2 (deleteCategory_call 3 "c1") ex_db
  = (λ db, (tt, db)) <$> deleteCategory 3 "c1" ex_db.
Proof. repeat split. Qed.

(** Progress moved from page 5 back to page 3: the later call wins. *)
Example updatePdfProgress_backward :
  getPdfById "f3" (updatePdfProgress "f3" 3 None 200
                     (updatePdfProgress "f3" 5 None 100 ex_db))
  = Some (PdfFile.mk "f3" (txt "c.pdf") None ex_blob 20 (Some 200) 3 9 4).
Proof. vm_compute. reflexivity. Qed.

(** C5. An id that matches no record: [updatePdfProgress],
    [updatePdfCategory] and [deletePdf] return the store as it was, and
    [getPdfById] answers [undefined].  In any store, deleting twice equals
    deleting once, and [getPdfById] answers [undefined] after the first
    delete and after the second. *)
Theorem missing_id_is_silent_noop (db : DB) (id : string) :
  (files db !! id = None →
     (∀ page total now, updatePdfProgress id page total now db = db) ∧
     (∀ c, updatePdfCategory id c db = db) ∧
     deletePdf id db = db ∧
     getPdfById id db = None) ∧
  deletePdf id (deletePdf id db) = deletePdf id db ∧
  getPdfById id (deletePdf id db) = None ∧
  getPdfById id (deletePdf id (deletePdf id db)) = None.
Proof.
  split; [intros Hnone; repeat split|repeat split].
  - intros page total now. apply DB_ext.
    + by rewrite updatePdfProgress_files, Hnone.
    + apply updatePdfProgress_categories.
  - intros c. apply DB_ext.
    + by rewrite updatePdfCategory_files, Hnone.
    + apply updatePdfCategory_categories.
  - unfold deletePdf, os_delete. rewrite delete_id by done. apply DB_eta.
  - exact Hnone.
  - unfold deletePdf, os_delete; simpl. f_equal. apply delete_id, lookup_delete_eq.
  - unfold getPdfById, deletePdf, os_get, os_delete; simpl. apply lookup_delete_eq.
  - unfold getPdfById, deletePdf, os_get, os_delete; simpl. apply lookup_delete_eq.
Qed.

Lemma missing_id_is_silent_noop_witness :
  (∀ page total now, updatePdfProgress "nope" page total now ex_db = ex_db) ∧
  (∀ c, updatePdfCategory "nope" c ex_db = ex_db) ∧
  deletePdf "nope" ex_db = ex_db ∧
  getPdfById "nope" ex_db = None.
Proof.
  apply (missing_id_is_silent_noop ex_db "nope"). vm_compute. reflexivity.
Defined.

(** C10. Frame of the two read-modify-write operations on a stored
    document: [updatePdfProgress] keeps [id], [name], [categoryId], [blob],
    [addedAt] and [size]; [updatePdfCategory] changes [categoryId] and no
    other field; both leave every other document and every category as they
    were. *)
Theorem update_frame (db : DB) (id : string) (file : PdfFile.t) :
  keyed PdfFile.id (files db) →
  files db !! id = Some file →
  (∀ page total now,
     let db' := updatePdfProgress id page total now db in
     (∃ file', files db' !! id = Some file' ∧
        PdfFile.id file' = PdfFile.id file ∧
        PdfFile.name file' = PdfFile.name file ∧
        PdfFile.categoryId file' = PdfFile.categoryId file ∧
        PdfFile.blob file' = PdfFile.blob file ∧
        PdfFile.addedAt file' = PdfFile.addedAt file ∧
        PdfFile.size file' = PdfFile.size file) ∧
     (∀ k, k ≠ id → files db' !! k = files db !! k) ∧
     categories db' = categories db) ∧
  (∀ c,
     let db' := updatePdfCategory id c db in
     files db' !! id
     = Some (PdfFile.mk (PdfFile.id file) (PdfFile.name file) c
               (PdfFile.blob file) (PdfFile.addedAt file)
               (PdfFile.lastReadAt file) (PdfFile.currentPage file)
               (PdfFile.totalPages file) (PdfFile.size file)) ∧
     (∀ k, k ≠ id → files db' !! k = files db !! k) ∧
     categories db' = categories db).
Proof.
  intros Hk Hf. pose proof (Hk _ _ Hf) as Hid. subst id. split.
  - intros page total now db'. subst db'. split; [|split].
    + exists (progressed page total now file).
      split; [by apply updatePdfProgress_lookup | done].
    + intros k Hne. rewrite updatePdfProgress_files, Hf.
      by apply lookup_insert_ne.
    + apply updatePdfProgress_categories.
  - intros c db'. subst db'. split; [|split].
    + rewrite updatePdfCategory_files, Hf. apply lookup_insert_eq.
    + intros k Hne. rewrite updatePdfCategory_files, Hf.
      by apply lookup_insert_ne.
    + apply updatePdfCategory_categories.
Qed.

Lemma update_frame_witness :
  (∀ page total now,
     let db' := updatePdfProgress "f1" page total now ex_db in
     (∃ file', files db' !! "f1" = Some file' ∧
        PdfFile.id file' = PdfFile.id ex_file1 ∧
        PdfFile.name file' = PdfFile.name ex_file1 ∧
        PdfFile.categoryId file' = PdfFile.categoryId ex_file1 ∧
        PdfFile.blob file' = PdfFile.blob ex_file1 ∧
        PdfFile.addedAt file' = PdfFile.addedAt ex_file1 ∧
        PdfFile.size file' = PdfFile.size ex_file1) ∧
     (∀ k, k ≠ "f1" → files db' !! k = files ex_db !! k) ∧
     categories db' = categories ex_db) ∧
  (∀ c,
     let db' := updatePdfCategory "f1" c ex_db in
     files db' !! "f1"
     = Some (PdfFile.mk (PdfFile.id ex_file1) (PdfFile.name ex_file1) c
               (PdfFile.blob ex_file1) (PdfFile.addedAt ex_file1)
               (PdfFile.lastReadAt ex_file1) (PdfFile.currentPage ex_file1)
               (PdfFile.totalPages ex_file1) (PdfFile.size ex_file1)) ∧
     (∀ k, k ≠ "f1" → files db' !! k = files ex_db !! k) ∧
     categories db' = categories ex_db).
Proof.
  apply (update_frame ex_db "f1" ex_file1).
  - apply ex_db_wf.
  - vm_compute. reflexivity.
Defined.

(** ** Key order and cursors *)

Section Entries.
Context {V : Type}.
Implicit Types (s : gmap string V) (l : list (string * V)).

#[local] Instance key_le_total : Total (@key_le V).
Proof. intros p q. unfold key_le. apply (total String.le). Qed.

#[local] Instance key_le_trans : Transitive (@key_le V).
Proof. intros p q r. unfold key_le. apply (transitivity (R:=String.le)). Qed.

Lemma os_entries_perm s : os_entries s ≡ₚ map_to_list s.
Proof. apply merge_sort_Permutation. Qed.

Lemma elem_of_os_entries s k v : (k, v) ∈ os_entries s ↔ s !! k = Some v.
Proof. rewrite os_entries_perm. apply elem_of_map_to_list. Qed.

Lemma os_entries_sorted s : StronglySorted key_le (os_entries s).
Proof. apply (StronglySorted_merge_sort key_le). Qed.

Lemma os_entries_NoDup s : NoDup (os_entries s).*1.
Proof. rewrite os_entries_perm. apply NoDup_fst_map_to_list. Qed.

Lemma os_entries_length s : length (os_entries s) = size s.
Proof. rewrite os_entries_perm. apply length_map_to_list. Qed.

Lemma os_getAll_perm s : os_getAll s ≡ₚ (map_to_list s).*2.
Proof. unfold os_getAll. by rewrite os_entries_perm. Qed.

(** [find] on a key-sorted list returns the match with the least key. *)
Lemma find_sorted_least (P : string * V → bool) l p :
  StronglySorted key_le l → find P l = Some p →
  ∀ q, q ∈ l → P q = true → String.le p.1 q.1.
Proof.
  induction 1 as [|a l Hs IH Hall]; simpl; [done|].
  destruct (P a) eqn:Pa.
  - intros [= <-] q Hq _. apply elem_of_cons in Hq as [->|Hq]; [done|].
    rewrite Forall_forall in Hall. by apply Hall.
  - intros Hfind q Hq Pq. apply elem_of_cons in Hq as [->|Hq]; [congruence|].
    by apply IH.
Qed.

Lemma find_ext_elem (P Q : string * V → bool) l :
  (∀ q, q ∈ l → P q = Q q) → find P l = find Q l.
Proof.
  induction l as [|a l IH]; simpl; [done|]. intros H.
  rewrite (H a) by left. destruct (Q a); [done|].
  apply IH. intros q Hq. apply H. by right.
Qed.

Lemma find_elem (P : string * V → bool) l p :
  find P l = Some p → p ∈ l ∧ P p = true.
Proof.
  intros H. apply find_some in H as [H1 H2]. by rewrite list_elem_of_In.
Qed.

Lemma find_none_elem (P : string * V → bool) l :
  find P l = None → ∀ q, q ∈ l → P q = false.
Proof.
  intros H q Hq. apply (find_none _ _ H). by rewrite <- list_elem_of_In.
Qed.

(** A store cursor at [(k, v)] continues to the record right after it. *)
Lemma continue_is_successor l1 k v l2 :
  StronglySorted key_le (l1 ++ (k, v) :: l2) →
  NoDup (l1 ++ (k, v) :: l2).*1 →
  find (λ p, bool_decide (strict String.le k p.1)) (l1 ++ (k, v) :: l2)
  = head l2.
Proof.
  induction l1 as [|a l1 IH]; simpl.
  - intros Hs Hn. rewrite bool_decide_eq_false_2
      by (intros [_ H]; by apply H).
    destruct l2 as [|[k2 v2] l2]; simpl; [done|].
    rewrite bool_decide_eq_true_2; [done|].
    apply StronglySorted_inv in Hs as [_ Hall].
    apply Forall_cons in Hall as [Hle _]. unfold key_le in Hle; simpl in Hle.
    split; [done|]. intros Hge.
    assert (k = k2) as -> by (by apply (anti_symm String.le)).
    simpl in Hn. apply NoDup_cons in Hn as [Hn _]. apply Hn. by left.
  - intros Hs Hn. apply StronglySorted_inv in Hs as [Hs Hall].
    simpl in Hn. apply NoDup_cons in Hn as [_ Hn].
    rewrite bool_decide_eq_false_2; [by apply IH|].
    intros [_ H]. apply H.
    rewrite Forall_forall in Hall. apply (Hall (k, v)).
    apply elem_of_app. right. by left.
Qed.
End Entries.

(** ** Sorting *)

Section ArraySortFacts.
Context {A : Type} (cmp : A → A → Q).

Lemma sort_insert_perm x l : sort_insert cmp x l ≡ₚ x :: l.
Proof.
  induction l as [|y l IH]; simpl; [done|].
  destruct (Qle_bool (cmp x y) 0); [done|].
  rewrite IH. apply Permutation_swap.
Qed.

Lemma array_sort_perm l : array_sort cmp l ≡ₚ l.
Proof.
  induction l as [|x l IH]; simpl; [done|].
  by rewrite sort_insert_perm, IH.
Qed.

Context (cmp_total : ∀ x y, cmp_le cmp x y ∨ cmp_le cmp y x).
Context (cmp_trans : ∀ x y z, cmp_le cmp x y → cmp_le cmp y z → cmp_le cmp x z).

Lemma sort_insert_sorted x l :
  StronglySorted (cmp_le cmp) l → StronglySorted (cmp_le cmp) (sort_insert cmp x l).
Proof.
  induction 1 as [|y l Hs IH Hall]; simpl.
  - repeat constructor.
  - destruct (Qle_bool (cmp x y) 0) eqn:E.
    + constructor; [by constructor|]. constructor; [done|].
      eapply Forall_impl; [exact Hall|]. intros z Hz. by eapply cmp_trans.
    + constructor; [done|]. rewrite sort_insert_perm.
      constructor; [|done].
      destruct (cmp_total x y) as [H|H]; [|done].
      unfold cmp_le in H. congruence.
Qed.

Lemma array_sort_sorted l : StronglySorted (cmp_le cmp) (array_sort cmp l).
Proof.
  induction l as [|x l IH]; simpl; [constructor|].
  by apply sort_insert_sorted.
Qed.
End ArraySortFacts.

(** ** Listing the metadata *)

Lemma StronglySorted_weaken {A} (R R' : relation A) l :
  (∀ x y, R x y → R' x y) → StronglySorted R l → StronglySorted R' l.
Proof.
  intros HR. induction 1 as [|x l Hs IH Hall]; constructor; [done|].
  eapply Forall_impl; [exact Hall|]. intros y. apply HR.
Qed.

Lemma metadata_loop_spec (store : gmap string PdfFile.t) :
  ∀ l2 l1 fuel results,
    os_entries store = l1 ++ l2 → (length l2 ≤ fuel)%nat →
    metadata_loop fuel store (head l2) results
    = Some (results ++ (omit_blob <$> l2.*2)).
Proof.
  induction l2 as [|[k v] l2 IH]; intros l1 fuel results He Hlen.
  - destruct fuel; simpl; by rewrite app_nil_r.
  - destruct fuel as [|fuel]; simpl in *; [lia|].
    unfold os_continue. rewrite He.
    rewrite continue_is_successor.
    + rewrite (IH (l1 ++ [(k, v)])); [|by rewrite <- app_assoc|lia].
      by rewrite <- app_assoc.
    + rewrite <- He. apply os_entries_sorted.
    + rewrite <- He. apply os_entries_NoDup.
Qed.

Lemma getAllPdfMetadata_eq (db : DB) (n : nat) :
  getAllPdfMetadata (size (files db) + n) db
  = Some (array_sort by_addedAt_desc (omit_blob <$> os_getAll (files db))).
Proof.
  unfold getAllPdfMetadata, files_tx_loop, os_openCursor.
  rewrite (metadata_loop_spec (files db) (os_entries (files db)) []); simpl.
  - done.
  - done.
  - rewrite os_entries_length. lia.
Qed.

Lemma by_addedAt_desc_le a b :
  cmp_le by_addedAt_desc a b ↔ PdfMetadata.addedAt b ≤ PdfMetadata.addedAt a.
Proof.
  unfold cmp_le, by_addedAt_desc. rewrite Qle_bool_iff.
  change 0%Q with (inject_Z 0). rewrite <- Zle_Qle. lia.
Qed.

Lemma sort_insert_fmap {A B} (f : A → B) (cmp : B → B → Q) x l :
  sort_insert cmp (f x) (f <$> l)
  = f <$> sort_insert (λ a b, cmp (f a) (f b)) x l.
Proof.
  induction l as [|y l IH]; [done|]. rewrite fmap_cons. cbn [sort_insert].
  destruct (Qle_bool (cmp (f x) (f y)) 0); [done|].
  by rewrite fmap_cons, IH.
Qed.

Lemma array_sort_fmap {A B} (f : A → B) (cmp : B → B → Q) l :
  array_sort cmp (f <$> l) = f <$> array_sort (λ a b, cmp (f a) (f b)) l.
Proof.
  induction l as [|x l IH]; [done|]. rewrite fmap_cons.
  change (array_sort cmp (f x :: (f <$> l)))
    with (sort_insert cmp (f x) (array_sort cmp (f <$> l))).
  by rewrite IH, sort_insert_fmap.
Qed.

(** C3. With fuel for every record, [getAllPdfMetadata] returns one entry
    for each stored document, each exactly once: the result lines up, entry
    by entry, with a rearrangement of the stored documents, and an entry
    has the [id], [name], [categoryId], [addedAt], [lastReadAt],
    [currentPage], [totalPages] and [size] of its document (a
    [PdfMetadata.t] has these eight fields and no [blob]).  The list is in
    descending order of [addedAt]. *)
Theorem getAllPdfMetadata_sorted_projection (db : DB) (n : nat) :
  ∃ result stored,
    getAllPdfMetadata (size (files db) + n) db = Some result ∧
    stored ≡ₚ (map_to_list (files db)).*2 ∧
    Forall2
      (λ (m : PdfMetadata.t) (f : PdfFile.t),
         PdfMetadata.id m = PdfFile.id f ∧
         PdfMetadata.name m = PdfFile.name f ∧
         PdfMetadata.categoryId m = PdfFile.categoryId f ∧
         PdfMetadata.addedAt m = PdfFile.addedAt f ∧
         PdfMetadata.lastReadAt m = PdfFile.lastReadAt f ∧
         PdfMetadata.currentPage m = PdfFile.currentPage f ∧
         PdfMetadata.totalPages m = PdfFile.totalPages f ∧
         PdfMetadata.size m = PdfFile.size f)
      result stored ∧
    StronglySorted
      (λ a b, PdfMetadata.addedAt b ≤ PdfMetadata.addedAt a) result.
Proof.
  exists (array_sort by_addedAt_desc (omit_blob <$> os_getAll (files db))),
    (array_sort (λ a b, by_addedAt_desc (omit_blob a) (omit_blob b))
       (os_getAll (files db))).
  split; [apply getAllPdfMetadata_eq|]. split; [|split].
  - by rewrite array_sort_perm, os_getAll_perm.
  - rewrite array_sort_fmap. apply Forall2_fmap_l, Forall_Forall2_diag.
    apply Forall_forall. intros f _. by repeat split.
  - apply (StronglySorted_weaken (cmp_le by_addedAt_desc)).
    + intros a b. apply by_addedAt_desc_le.
    + apply array_sort_sorted.
      * intros a b. rewrite !by_addedAt_desc_le. lia.
      * intros a b c. rewrite !by_addedAt_desc_le. lia.
Qed.

(** Documents added at times 10 < 20 < 30 are listed 30, 20, 10. *)
Example getAllPdfMetadata_order :
  getAllPdfMetadata 3 ex_db
  = Some [omit_blob ex_file2; omit_blob ex_file3; omit_blob ex_file1].
Proof. vm_compute. reflexivity. Qed.

(** ** Deleting a category *)

Lemma elem_of_os_getAll {V} (s : gmap string V) v :
  v ∈ os_getAll s ↔ ∃ k, s !! k = Some v.
Proof.
  unfold os_getAll. rewrite list_elem_of_fmap. split.
  - intros [[k w] [-> H]]. exists k. by apply elem_of_os_entries.
  - intros [k H]. exists (k, v). split; [done|]. by apply elem_of_os_entries.
Qed.

Lemma index_openCursor_Some c store k v :
  index_openCursor c store = Some (k, v) →
  store !! k = Some v ∧ PdfFile.categoryId v = Some c ∧
  ∀ k2 v2, store !! k2 = Some v2 → PdfFile.categoryId v2 = Some c →
           String.le k k2.
Proof.
  intros H. pose proof (find_elem _ _ _ H) as [Hin Hc].
  apply elem_of_os_entries in Hin. apply bool_decide_eq_true in Hc.
  split; [done|]. split; [done|]. intros k2 v2 H2 Hc2.
  apply (find_sorted_least _ _ _ (os_entries_sorted store) H (k2, v2)).
  - by apply elem_of_os_entries.
  - by apply bool_decide_eq_true.
Qed.

Lemma index_openCursor_None c store :
  index_openCursor c store = None →
  ∀ k v, store !! k = Some v → PdfFile.categoryId v ≠ Some c.
Proof.
  intros H k v Hkv. apply elem_of_os_entries in Hkv.
  pose proof (find_none_elem _ _ H _ Hkv) as Hf.
  by apply bool_decide_eq_false in Hf.
Qed.

(** Once the record under the cursor has been written back with
    [categoryId = null], continuing finds the first record of the category
    that is left. *)
Lemma index_continue_after_update c store k v :
  index_openCursor c store = Some (k, v) →
  let store' := cursor_update k (PdfFile.set_categoryId None v) store in
  index_continue c k store' = index_openCursor c store'.
Proof.
  intros H store'. apply index_openCursor_Some in H as (Hkv & Hc & Hmin).
  apply find_ext_elem. intros [k2 v2] Hin.
  apply elem_of_os_entries in Hin.
  destruct (in_category c (k2, v2)) eqn:Hcat; [simpl|done].
  apply bool_decide_eq_true in Hcat. simpl in Hcat.
  unfold store', cursor_update in Hin. rewrite lookup_insert in Hin.
  case_decide as Hk; [by simplify_eq|].
  apply bool_decide_eq_true. split; [by eapply Hmin|].
  intros Hge. apply Hk. apply (anti_symm String.le); [by eapply Hmin|done].
Qed.

Lemma uncategorize_loop_spec c :
  ∀ fuel store,
    (size (filter (λ kv, PdfFile.categoryId kv.2 = Some c) store) ≤ fuel)%nat →
    uncategorize_loop fuel c store (index_openCursor c store)
    = Some (uncategorize c <$> store).
Proof.
  assert (Hdone : ∀ store : gmap string PdfFile.t,
            index_openCursor c store = None →
            Some store = Some (uncategorize c <$> store)).
  { intros store E. f_equal. apply map_eq. intros i. rewrite lookup_fmap.
    destruct (store !! i) as [f|] eqn:Hi; simpl; [|done].
    f_equal. unfold uncategorize. rewrite decide_False; [done|].
    by eapply index_openCursor_None. }
  induction fuel as [|fuel IH]; intros store Hsize;
    destruct (index_openCursor c store) as [[k v]|] eqn:E; simpl;
    [|by apply Hdone| |by apply Hdone].
  - apply index_openCursor_Some in E as (Hkv & Hc & _).
    assert (filter (λ kv, PdfFile.categoryId kv.2 = Some c) store !! k = Some v)
      as Hf by (by apply map_lookup_filter_Some).
    assert (size (filter (λ kv, PdfFile.categoryId kv.2 = Some c) store) = 0%nat)
      as H0 by lia.
    apply map_size_empty_iff in H0. rewrite H0 in Hf. by rewrite lookup_empty in Hf.
  - rewrite index_continue_after_update by done.
    apply index_openCursor_Some in E as (Hkv & Hc & _).
    rewrite IH.
    + f_equal. apply map_eq. intros i. unfold cursor_update.
      rewrite !lookup_fmap, lookup_insert. case_decide as Hi.
      * subst i. rewrite Hkv. simpl. f_equal. unfold uncategorize.
        rewrite decide_False by done. by rewrite decide_True.
      * done.
    + unfold cursor_update.
      rewrite map_filter_insert_False by (simpl; done).
      rewrite map_filter_delete, map_size_delete_Some.
      * lia.
      * exists v. by apply map_lookup_filter_Some.
Qed.

Lemma deleteCategory_eq (db : DB) (c : string) (n : nat) :
  deleteCategory (size (files db) + n) c db
  = Some (mkDB (uncategorize c <$> files db) (delete c (categories db))).
Proof.
  unfold deleteCategory, deleteCategory_sweep, files_tx_loop; simpl.
  rewrite uncategorize_loop_spec; [done|].
  pose proof (map_size_filter (λ kv : string * PdfFile.t,
                PdfFile.categoryId kv.2 = Some c) (files db)).
  lia.
Qed.

(** C2. With fuel for every document, [deleteCategory c] returns; after it
    every document that referred to [c] has [categoryId = null] and is
    otherwise as before, every other document is unchanged, no document is
    added or lost, [getCategories] lists no category with id [c] (and the
    other categories as before), and no document refers to [c] any more. *)
Theorem deleteCategory_cascades (db : DB) (c : string) (n : nat) :
  keyed Category.id (categories db) →
  ∃ db',
    deleteCategory (size (files db) + n) c db = Some db' ∧
    (∀ k f, files db !! k = Some f → PdfFile.categoryId f = Some c →
            files db' !! k = Some (PdfFile.set_categoryId None f)) ∧
    (∀ k f, files db !! k = Some f → PdfFile.categoryId f ≠ Some c →
            files db' !! k = Some f) ∧
    (∀ k, files db !! k = None → files db' !! k = None) ∧
    (∀ cat, cat ∈ getCategories db' →
            Category.id cat ≠ c ∧ cat ∈ getCategories db) ∧
    (∀ cat, cat ∈ getCategories db → Category.id cat ≠ c →
            cat ∈ getCategories db') ∧
    (∀ k f, files db' !! k = Some f → PdfFile.categoryId f ≠ Some c).
Proof.
  intros Hk. eexists. split; [apply deleteCategory_eq|]. simpl.
  split; [|split; [|split; [|split; [|split]]]].
  - intros k f Hf Hc. rewrite lookup_fmap, Hf. simpl.
    unfold uncategorize. by rewrite decide_True.
  - intros k f Hf Hc. rewrite lookup_fmap, Hf. simpl.
    unfold uncategorize. by rewrite decide_False.
  - intros k Hf. by rewrite lookup_fmap, Hf.
  - intros cat Hin. unfold getCategories in *; simpl in Hin.
    apply elem_of_os_getAll in Hin as [k Hin].
    rewrite lookup_delete in Hin. case_decide as Hkc; [done|].
    split; [|apply elem_of_os_getAll; by exists k].
    rewrite (Hk _ _ Hin). congruence.
  - intros cat Hin Hne. unfold getCategories in *; simpl.
    apply elem_of_os_getAll in Hin as [k Hin].
    apply elem_of_os_getAll. exists k.
    rewrite lookup_delete_ne; [done|]. rewrite <- (Hk _ _ Hin). congruence.
  - intros k f. rewrite lookup_fmap.
    destruct (files db !! k) as [g|]; simpl; [|done].
    intros [= <-]. unfold uncategorize. case_decide; [done|done].
Qed.

Lemma deleteCategory_cascades_witness :
  ∃ db',
    deleteCategory (size (files ex_db) + 0) "c1" ex_db = Some db' ∧
    (∀ k f, files ex_db !! k = Some f → PdfFile.categoryId f = Some "c1" →
            files db' !! k = Some (PdfFile.set_categoryId None f)) ∧
    (∀ k f, files ex_db !! k = Some f → PdfFile.categoryId f ≠ Some "c1" →
            files db' !! k = Some f) ∧
    (∀ k, files ex_db !! k = None → files db' !! k = None) ∧
    (∀ cat, cat ∈ getCategories db' →
            Category.id cat ≠ "c1" ∧ cat ∈ getCategories ex_db) ∧
    (∀ cat, cat ∈ getCategories ex_db → Category.id cat ≠ "c1" →
            cat ∈ getCategories db') ∧
    (∀ k f, files db' !! k = Some f → PdfFile.categoryId f ≠ Some "c1").
Proof.
  apply (deleteCategory_cascades ex_db "c1" 0). apply ex_db_wf.
Defined.

(** The scenario of the spec: D1 and D2 in category C, D3 uncategorized;
    after [deleteCategory C] D1 and D2 are uncategorized, D3 is as it was,
    and no category is left. *)
Example deleteCategory_scenario :
  deleteCategory 3 "c1" ex_db
  = Some (mkDB (<["f3" := ex_file3]>
                 (<["f2" := PdfFile.set_categoryId None ex_file2]>
                    (<["f1" := PdfFile.set_categoryId None ex_file1]> ∅)))
               ∅).
Proof. vm_compute. reflexivity. Qed.

(** ** Referential integrity *)

Lemma uncategorize_after_update c (store : gmap string PdfFile.t) k v :
  store !! k = Some v → PdfFile.categoryId v = Some c →
  uncategorize c <$> cursor_update k (PdfFile.set_categoryId None v) store
  = uncategorize c <$> store.
Proof.
  intros Hkv Hc. apply map_eq. intros i. unfold cursor_update.
  rewrite !lookup_fmap, lookup_insert. case_decide as Hi; [|done].
  subst i. rewrite Hkv. simpl. f_equal. unfold uncategorize.
  rewrite decide_False by done. by rewrite decide_True.
Qed.

(** Whatever the fuel, a loop that returns has uncategorized every
    document of the category. *)
Lemma uncategorize_loop_result c :
  ∀ fuel store r,
    uncategorize_loop fuel c store (index_openCursor c store) = Some r →
    r = uncategorize c <$> store.
Proof.
  induction fuel as [|fuel IH]; intros store r;
    destruct (index_openCursor c store) as [[k v]|] eqn:E; simpl.
  - done.
  - intros [= <-]. apply map_eq. intros i. rewrite lookup_fmap.
    destruct (store !! i) as [f|] eqn:Hi; simpl; [|done].
    f_equal. unfold uncategorize. rewrite decide_False; [done|].
    by eapply index_openCursor_None.
  - rewrite index_continue_after_update by done. intros H.
    apply IH in H. rewrite H.
    apply index_openCursor_Some in E as (Hkv & Hc & _).
    by apply uncategorize_after_update.
  - intros [= <-]. apply map_eq. intros i. rewrite lookup_fmap.
    destruct (store !! i) as [f|] eqn:Hi; simpl; [|done].
    f_equal. unfold uncategorize. rewrite decide_False; [done|].
    by eapply index_openCursor_None.
Qed.

Lemma deleteCategory_result fuel c db db' :
  deleteCategory fuel c db = Some db' →
  db' = mkDB (uncategorize c <$> files db) (delete c (categories db)).
Proof.
  unfold deleteCategory, deleteCategory_sweep, files_tx_loop; simpl.
  destruct (uncategorize_loop fuel c (files db) (index_openCursor c (files db)))
    as [r|] eqn:E; simpl; [|done].
  intros [= <-]. by rewrite (uncategorize_loop_result _ _ _ _ E).
Qed.

Lemma uncategorize_id c f : PdfFile.id (uncategorize c f) = PdfFile.id f.
Proof. unfold uncategorize. by case_decide. Qed.

Lemma apply_op_wf op db db' :
  wf_db db → apply_op op db = Some db' → wf_db db'.
Proof.
  intros [Hf Hc]. destruct op; simpl.
  - intros [= <-]. split; [by apply keyed_put|done].
  - intros [= <-]. split; [by apply updatePdfCategory_keyed|].
    by rewrite updatePdfCategory_categories.
  - intros [= <-]. split; [by apply keyed_delete|done].
  - intros [= <-]. split; [done|by apply keyed_put].
  - intros H. apply deleteCategory_result in H as ->. split; simpl.
    + intros k f. rewrite lookup_fmap.
      destruct (files db !! k) as [g|] eqn:Hg; simpl; [|done].
      intros [= <-]. rewrite uncategorize_id. by apply Hf.
    + by apply (keyed_delete Category.id).
  - intros [= <-]. split; [by apply updatePdfProgress_keyed|].
    by rewrite updatePdfProgress_categories.
Qed.

Lemma updatePdfCategory_call_step id c db :
  task_step (updatePdfCategory_call id c) db
  = Some (files_store, readwrite, Return tt, updatePdfCategory id c db).
Proof.
  unfold task_step, updatePdfCategory_call, files_tx_loop, updatePdfCategory,
    files_tx.
  by destruct (updatePdfCategory_body id c (files db)).
Qed.

(** The first step of a call: a call other than [deleteCategory] is one
    [readwrite] transaction and does what the operation does as a whole;
    [deleteCategory] deletes the category record and has its sweep left. *)
Lemma call_step op db :
  task_step (call op) db
  = match op with
    | OpDeleteCategory fuel c =>
        Some (categories_store, readwrite, deleteCategory_rest fuel c,
              mkDB (files db) (os_delete c (categories db)))
    | OpAddCategory _ =>
        (λ db', (categories_store, readwrite, Return tt, db'))
          <$> apply_op op db
    | _ => (λ db', (files_store, readwrite, Return tt, db')) <$> apply_op op db
    end.
Proof.
  destruct op; simpl; try done.
  - apply updatePdfCategory_call_step.
  - apply updatePdfProgress_call_step.
Qed.

(** The second step of [deleteCategory]: the sweep, when it has fuel to
    return, uncategorizes every document of the category and ends the
    call. *)
Lemma deleteCategory_rest_step fuel c db lbl t' db' :
  task_step (deleteCategory_rest fuel c) db = Some (lbl, t', db') →
  lbl = (files_store, readwrite) ∧ t' = Return tt ∧
  db' = mkDB (uncategorize c <$> files db) (categories db).
Proof.
  unfold task_step, deleteCategory_rest, files_tx_loop, deleteCategory_sweep.
  destruct (uncategorize_loop fuel c (files db)
              (index_openCursor c (files db))) as [r|] eqn:E; simpl; [|done].
  intros [= <- <- <-]. by rewrite (uncategorize_loop_result _ _ _ _ E).
Qed.

(** With fuel for every document the sweep returns. *)
Lemma deleteCategory_rest_runs c db n :
  task_step (deleteCategory_rest (size (files db) + n) c) db
  = Some (files_store, readwrite, Return tt,
          mkDB (uncategorize c <$> files db) (categories db)).
Proof.
  unfold task_step, deleteCategory_rest, files_tx_loop, deleteCategory_sweep.
  rewrite uncategorize_loop_spec; [done|].
  pose proof (map_size_filter (λ kv : string * PdfFile.t,
                PdfFile.categoryId kv.2 = Some c) (files db)).
  lia.
Qed.

(** A call that runs alone does what the operation does as a whole. *)
Lemma call_runs_alone op db :
  task_run 2 (call op) db = (λ db', (tt, db')) <$> apply_op op db.
Proof.
  destruct op; try done.
  - change (task_run 2 (call (OpUpdatePdfCategory id categoryId)) db)
      with (match task_step (updatePdfCategory_call id categoryId) db with
            | Some (_, _, t', db') => task_run 1 t' db'
            | None => None
            end).
    by rewrite updatePdfCategory_call_step.
  - unfold call, deleteCategory_call, deleteCategory_rest, apply_op,
      deleteCategory, task_run, task_step, categories_tx_loop; simpl.
    by destruct (files_tx_loop readwrite (deleteCategory_sweep fuel id) _)
      as [[[] ?]|].
  - change (task_run 2 (call (OpUpdatePdfProgress id page totalPages now)) db)
      with (match task_step (updatePdfProgress_call id page totalPages now) db
            with
            | Some (_, _, t', db') => task_run 1 t' db'
            | None => None
            end).
    by rewrite updatePdfProgress_call_step.
Qed.

Lemma apply_op_refs (P : string → Prop) op db db' :
  (∀ fuel c, op ≠ OpDeleteCategory fuel c) →
  checked op db → apply_op op db = Some db' →
  (∀ k f c, files db !! k = Some f → PdfFile.categoryId f = Some c →
            is_Some (categories db !! c) ∨ P c) →
  (∀ k f c, files db' !! k = Some f → PdfFile.categoryId f = Some c →
            is_Some (categories db' !! c) ∨ P c).
Proof.
  intros Hop Hch Happ Hinv. destruct op; simpl in *.
  - injection Happ as <-. intros k f c. unfold addPdf, os_put; simpl.
    rewrite lookup_insert. case_decide; [|apply Hinv].
    intros [= <-] Hc. left. by rewrite Hc in Hch.
  - injection Happ as <-. intros k f c. rewrite updatePdfCategory_files.
    rewrite updatePdfCategory_categories.
    destruct (files db !! id) as [g|] eqn:Hg; [|apply Hinv].
    rewrite lookup_insert. case_decide; [|apply Hinv].
    intros [= <-]; simpl. intros ->. by left.
  - injection Happ as <-. intros k f c. unfold deletePdf, os_delete; simpl.
    rewrite lookup_delete. case_decide; [done|apply Hinv].
  - injection Happ as <-. intros k f c Hkf Hc.
    destruct (Hinv k f c Hkf Hc) as [H|H]; [left|by right].
    unfold addCategory, os_put; simpl. rewrite lookup_insert.
    case_decide; [by eexists|done].
  - by destruct (Hop fuel id).
  - injection Happ as <-. intros k f c. rewrite updatePdfProgress_files.
    rewrite updatePdfProgress_categories.
    destruct (files db !! id) as [g|] eqn:Hg; [|apply Hinv].
    rewrite lookup_insert. case_decide; [|apply Hinv].
    intros [= <-]; simpl. by apply (Hinv id g).
Qed.

Lemma elem_of_delete_other {A} (l : list A) i x y :
  x ∈ l → l !! i = Some y → x ≠ y → x ∈ delete i l.
Proof.
  intros Hx Hi Hne. apply list_elem_of_lookup in Hx as [j Hj].
  assert (j ≠ i) as Hji by (intros ->; congruence).
  apply list_elem_of_lookup. destruct (decide (j < i)%nat) as [Hlt|Hge].
  - exists j. by rewrite list_lookup_delete_lt.
  - exists (pred j). rewrite list_lookup_delete_ge by lia.
    by replace (S (pred j)) with j by lia.
Qed.

Lemma elem_of_insert_other {A} (l : list A) i x y z :
  x ∈ l → l !! i = Some y → x ≠ y → x ∈ <[i:=z]> l.
Proof.
  intros Hx Hi Hne. apply list_elem_of_lookup in Hx as [j Hj].
  assert (i ≠ j) as Hji by (intros ->; congruence).
  apply list_elem_of_lookup. exists j. by rewrite list_lookup_insert_ne.
Qed.

Lemma elem_of_insert_inv {A} (l : list A) i x z :
  x ∈ <[i:=z]> l → x = z ∨ x ∈ l.
Proof.
  intros Hx. apply list_elem_of_lookup in Hx as [j Hj].
  apply list_lookup_insert_Some in Hj as [(_ & -> & _)|[_ Hj]]; [by left|].
  right. by eapply list_elem_of_lookup_2.
Qed.

(** What holds of every reachable state of the system: key paths agree
    with keys; a call in flight is still whole or is a [deleteCategory]
    with its sweep left; a category reference is [null], stored, or
    awaited by a sweep. *)
Lemma sys_reachable_inv s :
  sys_reachable s →
  wf_db (sys_db s) ∧
  (∀ op t, (op, t) ∈ in_flight s →
           t = call op ∨
           ∃ fuel c, op = OpDeleteCategory fuel c ∧
                     t = deleteCategory_rest fuel c) ∧
  (∀ k f c, files (sys_db s) !! k = Some f → PdfFile.categoryId f = Some c →
            is_Some (categories (sys_db s) !! c) ∨ sweep_pending s c).
Proof.
  induction 1 as [|s s' _ (Hwf & Hfl & Hrefs) Hstep].
  { split; [split; apply keyed_empty|]. split.
    - intros op t Hin. by apply elem_of_nil in Hin.
    - intros k f c. simpl. by rewrite lookup_empty. }
  destruct Hstep as [op db ts|i op t lbl t' db db' ts Hi Hch Hstep]; simpl in *.
  { split; [done|]. split.
    - intros op' t' Hin. apply elem_of_app in Hin as [Hin|Hin]; [by apply Hfl|].
      apply list_elem_of_singleton in Hin as [= -> ->]. by left.
    - intros k f c Hkf Hc. destruct (Hrefs k f c Hkf Hc) as [?|[fuel Hp]];
        [by left|right].
      exists fuel. simpl. apply elem_of_app. by left. }
  assert ((op, t) ∈ ts) as Hin by (by eapply list_elem_of_lookup_2).
  destruct (Hfl op t Hin) as [->|(fuel & c & -> & ->)].
  - rewrite call_step in Hstep.
    assert ((∃ fuel c, op = OpDeleteCategory fuel c)
            ∨ (∀ fuel c, op ≠ OpDeleteCategory fuel c))
      as [(fuel & c & ->)|Hnd']
      by (destruct op; (by right) || (left; by eexists _, _)).
    + injection Hstep as <- <- <-. unfold after_step, deleteCategory_rest.
      fold (deleteCategory_rest fuel c). split; [|split].
      * destruct Hwf as [Hf Hc]. split; [done|by apply (keyed_delete Category.id)].
      * intros op' t' Hin'. apply elem_of_insert_inv in Hin' as [[= -> ->]|Hin'];
          [right; by exists fuel, c|by apply Hfl].
      * intros k f c' Hkf Hc'. simpl in *.
        destruct (decide (c' = c)) as [->|Hne].
        -- right. exists fuel. simpl. apply list_elem_of_lookup. exists i.
           apply list_lookup_insert_eq. by eapply lookup_lt_Some.
        -- destruct (Hrefs k f c' Hkf Hc') as [Hs|[fuel' Hp]].
           ++ left. unfold os_delete. by rewrite lookup_delete_ne.
           ++ right. exists fuel'. simpl in *.
              eapply elem_of_insert_other; [done|done|congruence].
    + assert (∃ l, apply_op op db = Some db' ∧ t' = Return tt ∧
                   lbl = (l, readwrite)) as (l & Happ & -> & ->).
      { destruct op; simpl in *; try (injection Hstep as <- <- <-; by eexists).
        by destruct (Hnd' fuel id). }
      simpl. split; [by eapply apply_op_wf|]. split.
      * intros op' t' Hin'. apply Hfl. by eapply list_elem_of_delete_inv.
      * intros k f c Hkf Hc.
        assert (is_Some (categories db' !! c)
                ∨ sweep_pending (mkSys db ts) c) as [?|[fuel Hp]];
          [|by left|].
        { by eapply (apply_op_refs (sweep_pending (mkSys db ts)) op db db'). }
        right. exists fuel. simpl in *.
        eapply elem_of_delete_other; [done|done|].
        intros [= <- _]. by destruct (Hnd' fuel c).
  - apply deleteCategory_rest_step in Hstep as (-> & -> & ->). simpl.
    split; [|split].
    + destruct Hwf as [Hf Hc]. split; [|done]. simpl.
      intros k f. rewrite lookup_fmap.
      destruct (files db !! k) as [g|] eqn:Hg; simpl; [|done].
      intros [= <-]. rewrite uncategorize_id. by apply Hf.
    + intros op' t' Hin'. apply Hfl. by eapply list_elem_of_delete_inv.
    + intros k f c'. rewrite lookup_fmap.
      destruct (files db !! k) as [g|] eqn:Hg; simpl; [|done].
      intros [= <-] Hc'. unfold uncategorize in Hc'.
      destruct (decide (PdfFile.categoryId g = Some c)) as [|Hg']; [done|].
      destruct (Hrefs k g c' Hg Hc') as [?|[fuel' Hp]]; [by left|right].
      exists fuel'. simpl in *.
      eapply elem_of_delete_other; [done|done|]. congruence.
Qed.

(** The sample database is reached by four calls, each committed before
    the next is made. *)
Lemma ex_db_reachable : sys_reachable (mkSys ex_db []).
Proof.
  pose (db0 := addCategory ex_cat empty_db).
  pose (db1 := addPdf ex_file1 db0).
  pose (db2 := addPdf ex_file2 db1).
  assert (∀ op db db' l,
            sys_reachable (mkSys db []) → checked op db →
            task_step (call op) db = Some (l, Return tt, db') →
            sys_reachable (mkSys db' [])) as Hone.
  { intros op db db' l Hr Hch Hst.
    apply (sys_reachable_step (mkSys db [(op, call op)]));
      [apply (sys_reachable_step (mkSys db [])); [done|apply (sys_call op db [])]|].
    by apply (sys_commit 0 op (call op) l (Return tt) db db' [(op, call op)]). }
  apply (Hone (OpAddPdf ex_file3) db2 ex_db (files_store, readwrite));
    [|done|done].
  apply (Hone (OpAddPdf ex_file2) db1 db2 (files_store, readwrite));
    [|by eexists|done].
  apply (Hone (OpAddPdf ex_file1) db0 db1 (files_store, readwrite));
    [|by eexists|done].
  apply (Hone (OpAddCategory ex_cat) empty_db db0
           (categories_store, readwrite)); [|done|done].
  constructor.
Qed.

(** The state between the two transactions of [deleteCategory "c1"] on the
    sample database: the category is gone, its documents still refer to it
    and the sweep is in flight. *)
Lemma between_the_transactions :
  sys_reachable
    (mkSys (mkDB (files ex_db) ∅)
           [(OpDeleteCategory 3 "c1", deleteCategory_rest 3 "c1")]).
Proof.
  apply (sys_reachable_step
           (mkSys ex_db [(OpDeleteCategory 3 "c1", call (OpDeleteCategory 3 "c1"))]));
    [apply (sys_reachable_step (mkSys ex_db []));
       [apply ex_db_reachable|apply (sys_call (OpDeleteCategory 3 "c1") ex_db [])]|].
  by apply (sys_commit 0 (OpDeleteCategory 3 "c1")
              (call (OpDeleteCategory 3 "c1")) (categories_store, readwrite)
              (deleteCategory_rest 3 "c1") ex_db (mkDB (files ex_db) ∅)
              [(OpDeleteCategory 3 "c1", call (OpDeleteCategory 3 "c1"))]).
Qed.

(** C6 as stated fails, in two ways.  The store takes the category
    reference of [addPdf] on trust, so one [addPdf] on the fresh database
    yields a reachable state with a document that refers to no stored
    category.  And with every reference checked: [deleteCategory] commits
    the deletion of the category record before it opens the transaction
    that sweeps the documents, and in the state between the two the
    documents of the category refer to no stored category. *)
Lemma store_trusts_category_reference :
  (reachable (addPdf ex_file1 empty_db) ∧
   ¬ referential_integrity (addPdf ex_file1 empty_db)) ∧
  (sys_reachable
     (mkSys (mkDB (files ex_db) ∅)
            [(OpDeleteCategory 3 "c1", deleteCategory_rest 3 "c1")]) ∧
   ¬ referential_integrity (mkDB (files ex_db) ∅)).
Proof.
  split; split.
  - by apply (reachable_step empty_db (OpAddPdf ex_file1)); [constructor|].
  - intros H. destruct (H "f1" ex_file1 "c1") as (cat & Hin & _);
      [by vm_compute|done|].
    apply elem_of_os_getAll in Hin as [k Hin]. simpl in Hin.
    by rewrite lookup_empty in Hin.
  - apply between_the_transactions.
  - intros H. destruct (H "f1" ex_file1 "c1") as (cat & Hin & _);
      [by vm_compute|done|].
    apply elem_of_os_getAll in Hin as [k Hin]. simpl in Hin.
    by rewrite lookup_empty in Hin.
Qed.

(** C6, amended.  Take the states reached from the fresh database by calls
    whose transactions the engine commits in any order, where every
    [addPdf] and [updatePdfCategory] writes a category reference that is
    [null] or the id of a category in the store at the moment of the write.
    In every such state each document's [categoryId] is [null], or the id
    of a category that [getCategories] lists, or the id of a category whose
    [deleteCategory] has deleted the record and has its sweep still to run.
    So whenever no [deleteCategory] is between its two transactions, every
    [categoryId] is [null] or the id of a listed category. *)
Theorem checked_references_keep_integrity (s : Sys) :
  sys_reachable s →
  (∀ k f c, files (sys_db s) !! k = Some f → PdfFile.categoryId f = Some c →
     (∃ cat, cat ∈ getCategories (sys_db s) ∧ Category.id cat = c)
     ∨ sweep_pending s c) ∧
  ((∀ c, ¬ sweep_pending s c) → referential_integrity (sys_db s)).
Proof.
  intros H. apply sys_reachable_inv in H as ([_ Hc] & _ & Hrefs).
  assert (∀ k f c, files (sys_db s) !! k = Some f →
            PdfFile.categoryId f = Some c →
            (∃ cat, cat ∈ getCategories (sys_db s) ∧ Category.id cat = c)
            ∨ sweep_pending s c) as Hall.
  { intros k f c Hkf Hcat.
    destruct (Hrefs k f c Hkf Hcat) as [[cat Hcat']|Hp]; [left|by right].
    exists cat. split; [|by apply Hc].
    apply elem_of_os_getAll. by exists c. }
  split; [exact Hall|].
  intros Hnone k f c Hkf Hcat.
  destruct (Hall k f c Hkf Hcat) as [?|Hp]; [done|]. by destruct (Hnone c).
Qed.

Lemma checked_references_keep_integrity_witness :
  referential_integrity ex_db.
Proof.
  apply (checked_references_keep_integrity (mkSys ex_db [])).
  - apply ex_db_reachable.
  - intros c [fuel H]. simpl in H. by apply elem_of_nil in H.
Defined.

(** Between the two transactions of [deleteCategory "c1"] the documents
    of the category are the ones a sweep awaits; once the sweep has run, in
    the same state of the store as a [deleteCategory] that ran alone, no
    reference is left dangling. *)
Example deleteCategory_in_two_steps :
  sweep_pending
    (mkSys (mkDB (files ex_db) ∅)
           [(OpDeleteCategory 3 "c1", deleteCategory_rest 3 "c1")]) "c1" ∧
  task_step (deleteCategory_rest 3 "c1") (mkDB (files ex_db) ∅)
  = Some (files_store, readwrite, Return tt,
          mkDB (uncategorize "c1" <$> files ex_db) ∅) ∧
  deleteCategory 3 "c1" ex_db
  = Some (mkDB (uncategorize "c1" <$> files ex_db) ∅).
Proof.
  split; [exists 3%nat; simpl; by left|].
  split; by vm_compute.
Qed.

(** ** The category filter of the library view *)

Lemma searchFilter_blank toLowerCase query result :
  trim query = [] → searchFilter toLowerCase query result = result.
Proof. unfold searchFilter. by intros ->. Qed.

Lemma truthy_string_true s : s ≠ "" → truthy_string s = true.
Proof. by destruct s. Qed.

Lemma categoryFilter_id (c : string) (files : list PdfMetadata.t) :
  c ≠ "" → c ≠ "all" → c ≠ "uncategorized" →
  categoryFilter (Some c) files
  = filter (λ f, PdfMetadata.categoryId f = Some c) files.
Proof.
  intros H1 H2 H3. unfold categoryFilter.
  rewrite bool_decide_eq_false_2 by congruence. simpl.
  rewrite truthy_string_true by done.
  rewrite bool_decide_eq_true_2 by congruence. done.
Qed.

Lemma categoryFilter_uncategorized (files : list PdfMetadata.t) :
  categoryFilter (Some "uncategorized") files
  = filter (λ f, PdfMetadata.categoryId f = None
                 ∨ PdfMetadata.categoryId f = Some "") files.
Proof.
  unfold categoryFilter. rewrite bool_decide_eq_true_2 by done.
  apply list_filter_iff. intros f.
  destruct (PdfMetadata.categoryId f) as [[|a s]|]; simpl.
  - split; [by right|done].
  - split; [done|]. by intros [|].
  - split; [by left|done].
Qed.

Lemma filter_ext_elem {A} (P Q : A → Prop)
    `{∀ x, Decision (P x)} `{∀ x, Decision (Q x)} (l : list A) :
  (∀ x, x ∈ l → P x ↔ Q x) → filter P l = filter Q l.
Proof.
  induction l as [|x l IH]; intros Hl; [done|].
  rewrite !filter_cons.
  assert (filter P l = filter Q l) as ->
    by (apply IH; intros y Hy; apply Hl; by right).
  destruct (decide (P x)) as [HP|HP], (decide (Q x)) as [HQ|HQ];
    try done; exfalso; pose proof (Hl x (list_elem_of_here x l)); tauto.
Qed.

(** What [uuidv4()] returns is a collection id: it is not empty and is
    neither of the two selector strings. *)
Lemma uuid_is_collection_id (s : string) :
  uuid_format s = true → collection_id s.
Proof.
  intros H. repeat split; intros ->; vm_compute in H; discriminate H.
Qed.

(** C7. For records whose [categoryId] is [null] or a collection id (the
    ids are made by [uuidv4()], so none is empty or a selector string):
    filtering by a collection id keeps exactly the records whose
    [categoryId] equals that id, and filtering by ["uncategorized"] keeps
    exactly the records whose [categoryId] is [null].  This holds of the
    category step as it is, and of the whole view [filteredFiles] (up to
    the order the sort gives) when the search box is blank. *)
Theorem category_filter_exact
    (toLowerCase : text → text) (localeCompare : text → text → Z)
    (files : list PdfMetadata.t) (cats : list Category.t) (query : text)
    (by_ : SortOption) :
  (∀ f c, f ∈ files → PdfMetadata.categoryId f = Some c → collection_id c) →
  (∀ c, collection_id c →
     categoryFilter (Some c) files
     = filter (λ f, PdfMetadata.categoryId f = Some c) files ∧
     (trim query = [] →
      filteredFiles toLowerCase localeCompare
        (mkApp files cats (Some c) query by_)
      ≡ₚ filter (λ f, PdfMetadata.categoryId f = Some c) files)) ∧
  categoryFilter (Some "uncategorized") files
  = filter (λ f, PdfMetadata.categoryId f = None) files ∧
  (trim query = [] →
   filteredFiles toLowerCase localeCompare
     (mkApp files cats (Some "uncategorized") query by_)
   ≡ₚ filter (λ f, PdfMetadata.categoryId f = None) files).
Proof.
  intros Hids.
  assert (categoryFilter (Some "uncategorized") files
          = filter (λ f, PdfMetadata.categoryId f = None) files) as Hunc.
  { rewrite categoryFilter_uncategorized. apply filter_ext_elem.
    intros f Hf. split; [|by left]. intros [H|H]; [done|].
    by destruct (Hids f "" Hf H) as [? _]. }
  split; [|split].
  - intros c (H1 & H2 & H3). split; [by apply categoryFilter_id|].
    intros Hq. unfold filteredFiles; simpl.
    rewrite array_sort_perm, searchFilter_blank by done.
    by rewrite categoryFilter_id.
  - exact Hunc.
  - intros Hq. unfold filteredFiles; simpl.
    rewrite array_sort_perm, searchFilter_blank by done.
    by rewrite Hunc.
Qed.

Lemma category_filter_exact_witness :
  categoryFilter (Some "uncategorized")
    (omit_blob <$> [ex_file1; ex_file3; ex_file2])
  = [omit_blob ex_file3] ∧
  filteredFiles (λ s, s) (λ _ _, 0)
    (mkApp (omit_blob <$> [ex_file1; ex_file3; ex_file2]) []
           (Some "uncategorized") (txt " ") added_desc)
  ≡ₚ [omit_blob ex_file3].
Proof.
  destruct (category_filter_exact (λ s, s) (λ _ _, 0)
              (omit_blob <$> [ex_file1; ex_file3; ex_file2]) []
              (txt " ") added_desc)
    as (_ & H1 & H2).
  - intros f c Hf Hc.
    assert (c = "c1") as ->; [|done].
    rewrite !fmap_cons, !elem_of_cons in Hf.
    destruct Hf as [-> | [-> | [-> | Hf]]]; simpl in Hc;
      [congruence|congruence|congruence|].
    by apply elem_of_nil in Hf.
  - split; [exact H1|]. apply H2. reflexivity.
Defined.

(** The category step on ids in [uuidv4()] format, mixed with [null]. *)
Example category_filter_on_uuids :
  let c := "3b241101-e2bb-4255-8caf-4136c566a962" in
  let d := "9f0c2b7e-1d3a-4c5b-8e6f-0a1b2c3d4e5f" in
  let m id cat := PdfMetadata.mk id (txt "x.pdf") cat 1 None 1 0 4 in
  uuid_format c = true ∧ uuid_format d = true ∧
  categoryFilter (Some c)
    [m "1" (Some c); m "2" None; m "3" (Some d); m "4" (Some c)]
  = [m "1" (Some c); m "4" (Some c)] ∧
  categoryFilter (Some "uncategorized")
    [m "1" (Some c); m "2" None; m "3" (Some d); m "4" (Some c)]
  = [m "2" None].
Proof. vm_compute. repeat split. Qed.

(** ** Creating a category from the sidebar *)

Lemma trimStart_blank s : blank s → trimStart s = [].
Proof.
  induction s as [|a s IH]; simpl; [done|]. intros [-> Hs]. by apply IH.
Qed.

Lemma trimStart_empty_blank s : trimStart s = [] → blank s.
Proof.
  induction s as [|a s IH]; simpl; [done|].
  destruct (is_white_space a); [|done]. intros H. split; [done|by apply IH].
Qed.

(** [trimStart] returns the empty text or starts at a code unit that is
    not white space. *)
Lemma trimStart_head s :
  trimStart s = [] ∨
  ∃ a t, trimStart s = a :: t ∧ is_white_space a = false.
Proof.
  induction s as [|a s IH]; simpl; [by left|].
  destruct (is_white_space a) eqn:E; [done|]. right. by exists a, s.
Qed.

Lemma trimEnd_head a t :
  is_white_space a = false → ∃ t', trimEnd (a :: t) = a :: t'.
Proof.
  intros E. simpl. rewrite E. destruct (trimEnd t); by eexists.
Qed.

Lemma trim_head s :
  trim s = [] ∨ ∃ a t, trim s = a :: t ∧ is_white_space a = false.
Proof.
  unfold trim. destruct (trimStart_head s) as [->|(a & t & -> & E)];
    [by left|].
  right. destruct (trimEnd_head a t E) as [t' ->]. by exists a, t'.
Qed.

Lemma trim_empty_iff s : trim s = [] ↔ blank s.
Proof.
  split.
  - intros H. apply trimStart_empty_blank.
    destruct (trimStart_head s) as [E|(a & t & E & Ha)]; [done|].
    unfold trim in H. rewrite E in H.
    destruct (trimEnd_head a t Ha) as [t' Ht]. congruence.
  - intros H. unfold trim. by rewrite trimStart_blank.
Qed.

Lemma trim_not_blank s : trim s ≠ [] → ¬ blank (trim s).
Proof.
  intros Hne. destruct (trim_head s) as [E|(a & t & -> & Ha)]; [done|].
  simpl. intros [H _]. congruence.
Qed.

(** C8. A name that is empty or all white space (any of the code units
    [String.prototype.trim] strips) makes [handleAddSubmit] return without
    touching the database or the shell's state.  Any category found in the
    database after [handleAddSubmit] was there before or is the new one,
    whose name is the trimmed input and is neither empty nor all white
    space. *)
Theorem blank_name_is_rejected (uuid : string) (now : Z)
    (sb : SidebarState) (app : AppState) (db : DB) :
  (blank (newCategoryName sb) →
   handleAddSubmit uuid now (sb, (app, db)) = (sb, (app, db))) ∧
  (∀ k cat,
     categories (handleAddSubmit uuid now (sb, (app, db))).2.2 !! k = Some cat →
     categories db !! k = Some cat ∨
     (cat = Category.mk uuid (trim (newCategoryName sb)) now ∧
      Category.name cat ≠ [] ∧ ¬ blank (Category.name cat))).
Proof.
  split.
  - intros Hb. unfold handleAddSubmit.
    apply trim_empty_iff in Hb. by rewrite Hb.
  - intros k cat. unfold handleAddSubmit.
    destruct (trim (newCategoryName sb)) as [|a t] eqn:E; simpl; [by left|].
    assert (¬ blank (a :: t)) as Hnb.
    { rewrite <- E. apply trim_not_blank. by rewrite E. }
    unfold os_put; simpl. rewrite lookup_insert.
    case_decide; [|by left]. intros [= <-]. right. done.
Qed.

Lemma blank_name_is_rejected_witness :
  handleAddSubmit "u1" 7
    (mkSidebar true [32; 12288; 9; 8195; 65279; 160]%N,
     (mkApp [] [] (Some "all") [] added_desc, ex_db))
  = (mkSidebar true [32; 12288; 9; 8195; 65279; 160]%N,
     (mkApp [] [] (Some "all") [] added_desc, ex_db)).
Proof.
  apply (blank_name_is_rejected "u1" 7
           (mkSidebar true [32; 12288; 9; 8195; 65279; 160]%N)
           (mkApp [] [] (Some "all") [] added_desc) ex_db).
  simpl. repeat split.
Defined.

(** Every code unit [String.prototype.trim] strips counts as white space,
    and a letter does not. *)
Example white_space_code_units :
  forallb is_white_space
    [9; 10; 11; 12; 13; 32; 160; 5760; 8192; 8193; 8194; 8195; 8196; 8197;
     8198; 8199; 8200; 8201; 8202; 8232; 8233; 8239; 8287; 12288; 65279]%N
  = true ∧
  forallb (λ c, negb (is_white_space c))
    [0; 8; 14; 31; 33; 65; 133; 159; 161; 5759; 5761; 6158; 8191; 8203;
     8231; 8234; 8238; 8240; 8286; 8288; 12287; 12289; 65278; 65280]%N
  = true.
Proof. by vm_compute. Qed.

(** A name with white space around it is stored trimmed. *)
Example handleAddSubmit_trims :
  getCategories (handleAddSubmit "u1" 7
    (mkSidebar true (txt "  Sci Fi "),
     (mkApp [] [] (Some "all") [] added_desc, empty_db))).2.2
  = [Category.mk "u1" (txt "Sci Fi") 7].
Proof. vm_compute. reflexivity. Qed.

(** ** Initialization *)

Lemma step_started st ev : Init.started st → Init.started (Init.step st ev).
Proof.
  destruct st as [w rets]. unfold Init.started at 1. simpl.
  intros ([->| ->] & Hne & Hall);
    destruct ev; simpl; (split; [|split]); simpl;
    try (by left); try (by right); try done;
    try (by destruct rets).
  all: apply Forall_app; split; [done|by repeat constructor].
Qed.

Lemma steps_started evs : ∀ st,
  Init.started st → Init.started (foldl Init.step st evs).
Proof.
  induction evs as [|ev evs IH]; intros st H; simpl; [done|].
  by apply IH, step_started.
Qed.

Lemma run_inv evs :
  Init.run evs = (Init.init, []) ∨ Init.started (Init.run evs).
Proof.
  unfold Init.run. induction evs as [|ev evs IH] using rev_ind; [by left|].
  rewrite foldl_app. simpl. destruct IH as [-> | IH].
  - destruct ev; [right|by left].
    split; [by left|]. by split; [|repeat constructor].
  - right. by apply step_started.
Qed.

Lemma run_called evs1 evs2 :
  Init.started (Init.run (evs1 ++ Init.CallGetDB :: evs2)).
Proof.
  unfold Init.run. rewrite foldl_app.
  apply (steps_started evs2
           (Init.step (foldl Init.step (Init.init, []) evs1) Init.CallGetDB)).
  destruct (run_inv evs1) as [H | H]; unfold Init.run in H.
  - rewrite H. split; [by left|]. by split; [|repeat constructor].
  - by apply step_started.
Qed.

Lemma run_calls n :
  Init.run (replicate (S n) Init.CallGetDB)
  = (Init.pending_world, replicate (S n) 0%nat).
Proof.
  unfold Init.run. induction n as [|n IH]; [done|].
  rewrite replicate_S_end, foldl_app, IH. simpl.
  f_equal. by rewrite <- replicate_S_end.
Qed.

(** C9. In every schedule of [getDB()] calls and engine steps that starts
    on a fresh page with no database: every call returns the same promise,
    [openDB] is called at most once, and [upgrade] has run once if that
    promise is fulfilled (its value then being the connection with both
    object stores and both indexes) and not at all otherwise.  Once one call
    has been made, [getDB()] returns the memoized promise and changes
    nothing.  In particular [S n] calls made before the open request
    completes all hold promise [0] with a single request pending, and
    completing it runs [upgrade] once and fulfills that promise. *)
Theorem getDB_single_flight :
  (∀ evs : list Init.Event,
     let w := (Init.run evs).1 in
     Forall (λ p, p = 0%nat) (Init.run evs).2 ∧
     (Init.next_promise w ≤ 1)%nat ∧
     (Init.upgrades w ≤ 1)%nat ∧
     match Init.settled w !! 0%nat with
     | Some h => h = Init.full_handle ∧ Init.upgrades w = 1%nat ∧
                 Init.schema w = Init.h_stores h
     | None => Init.upgrades w = 0%nat
     end) ∧
  (∀ evs1 evs2 : list Init.Event,
     let w := (Init.run (evs1 ++ Init.CallGetDB :: evs2)).1 in
     Init.getDB w = (0%nat, w)) ∧
  (∀ n : nat,
     Init.run (replicate (S n) Init.CallGetDB)
     = (Init.pending_world, replicate (S n) 0%nat) ∧
     Init.run (replicate (S n) Init.CallGetDB ++ [Init.EngineStep])
     = (Init.open_world, replicate (S n) 0%nat)).
Proof.
  split; [|split].
  - intros evs w. subst w.
    destruct (run_inv evs) as [-> | ([E|E] & _ & Hall)]; simpl.
    + repeat split; try done; lia.
    + rewrite E. repeat split; try done; simpl; lia.
    + rewrite E. repeat split; try done; simpl; lia.
  - intros evs1 evs2 w. subst w.
    by destruct (run_called evs1 evs2) as ([-> | ->] & _).
  - intros n. split; [apply run_calls|].
    unfold Init.run. rewrite foldl_app.
    pose proof (run_calls n) as H. unfold Init.run in H. by rewrite H.
Qed.


(** * Further properties of the store *)

(** ** Keys *)

(** X1. Every state the operations reach from the fresh database stores
    each document and each category under its own [id]. *)
Theorem reachable_keeps_key_paths (db : DB) : reachable db → wf_db db.
Proof.
  induction 1 as [|db op db' _ IH Happ].
  - split; apply keyed_empty.
  - by eapply apply_op_wf.
Qed.

Lemma reachable_keeps_key_paths_witness : wf_db (addPdf ex_file1 empty_db).
Proof.
  apply reachable_keeps_key_paths.
  by apply (reachable_step empty_db (OpAddPdf ex_file1)); [constructor|].
Defined.

(** X2. [addPdf] is a [put]: on an id that is already stored it replaces
    that record and the number of documents stays the same; on a new id the
    number grows by one.  Either way the other documents and the categories
    are untouched, and adding twice under one id keeps the second record
    only. *)
Theorem addPdf_replaces_or_adds (d : PdfFile.t) (db : DB) :
  (∀ k, k ≠ PdfFile.id d → files (addPdf d db) !! k = files db !! k) ∧
  categories (addPdf d db) = categories db ∧
  size (files (addPdf d db))
  = match files db !! PdfFile.id d with
    | Some _ => size (files db)
    | None => S (size (files db))
    end ∧
  (∀ d0, PdfFile.id d0 = PdfFile.id d → addPdf d (addPdf d0 db) = addPdf d db).
Proof.
  unfold addPdf, os_put; simpl. split; [|split; [done|split]].
  - intros k Hk. by apply lookup_insert_ne.
  - destruct (files db !! PdfFile.id d) as [f|] eqn:E.
    + apply map_size_insert_Some. by eexists.
    + by apply map_size_insert_None.
  - intros d0 ->. f_equal. apply insert_insert_eq.
Qed.

(** ** The order of listings *)

Lemma sorted_keys_strict {V} (l : list (string * V)) :
  StronglySorted key_le l → NoDup l.*1 →
  StronglySorted (λ p q, strict String.le p.1 q.1) l.
Proof.
  induction 1 as [|p l Hs IH Hall]; simpl; [constructor|].
  intros Hn. apply NoDup_cons in Hn as [Hp Hn].
  constructor; [by apply IH|].
  rewrite Forall_forall in Hall |- *. intros q Hq.
  split; [by apply Hall|]. intros Hge.
  assert (p.1 = q.1) as E by (apply (anti_symm String.le); [by apply Hall|done]).
  apply Hp. rewrite E. by apply list_elem_of_fmap_2.
Qed.

Lemma values_sorted {V} (keyPath : V → string) (l : list (string * V)) :
  Forall (λ p, keyPath p.2 = p.1) l →
  StronglySorted (λ p q, strict String.le p.1 q.1) l →
  StronglySorted (λ v w, strict String.le (keyPath v) (keyPath w)) l.*2.
Proof.
  intros Hkeys Hs. induction Hs as [|p l Hs IH Hall]; csimpl; [constructor|].
  apply Forall_cons in Hkeys as [Hp Hkeys].
  constructor; [by apply IH|].
  rewrite Forall_forall in Hall. rewrite Forall_forall in Hkeys.
  apply Forall_forall. intros w Hw.
  apply list_elem_of_fmap in Hw as [q [-> Hq]].
  rewrite Hp, (Hkeys q Hq). by apply Hall.
Qed.

Lemma os_getAll_sorted {V} (keyPath : V → string) (s : gmap string V) :
  keyed keyPath s →
  StronglySorted (λ v w, strict String.le (keyPath v) (keyPath w))
                 (os_getAll s).
Proof.
  intros Hk. unfold os_getAll. apply values_sorted.
  - apply Forall_forall. intros [k v] Hin.
    apply elem_of_os_entries in Hin. by apply Hk.
  - apply sorted_keys_strict; [apply os_entries_sorted|apply os_entries_NoDup].
Qed.

Lemma sort_insert_listing_order x l :
  Forall (λ y, strict String.le (PdfMetadata.id x) (PdfMetadata.id y)) l →
  StronglySorted listing_order l →
  StronglySorted listing_order (sort_insert by_addedAt_desc x l).
Proof.
  intros Hx Hs. induction Hs as [|y l Hs IH Hall]; simpl.
  - repeat constructor.
  - apply Forall_cons in Hx as [Hxy Hx].
    destruct (Qle_bool (by_addedAt_desc x y) 0) eqn:E.
    + apply (proj1 (by_addedAt_desc_le x y)) in E.
      constructor; [by constructor|].
      assert (listing_order x y) as Txy.
      { unfold listing_order.
        destruct (decide (PdfMetadata.addedAt y = PdfMetadata.addedAt x));
          [right; split; [done|done] | left; lia]. }
      constructor; [done|].
      rewrite Forall_forall in Hall, Hx |- *. intros z Hz.
      specialize (Hall z Hz). specialize (Hx z Hz). unfold listing_order in *.
      destruct (decide (PdfMetadata.addedAt z = PdfMetadata.addedAt x));
        [right; split; [done|done] | left].
      destruct Hall as [?|[? _]]; lia.
    + assert (PdfMetadata.addedAt x < PdfMetadata.addedAt y) as Hlt.
      { destruct (decide (PdfMetadata.addedAt y ≤ PdfMetadata.addedAt x))
          as [Hle|]; [|lia].
        apply by_addedAt_desc_le in Hle. unfold cmp_le in Hle. congruence. }
      constructor; [by apply IH|].
      rewrite sort_insert_perm. constructor; [by left|done].
Qed.

Lemma array_sort_listing_order l :
  StronglySorted
    (λ a b, strict String.le (PdfMetadata.id a) (PdfMetadata.id b)) l →
  StronglySorted listing_order (array_sort by_addedAt_desc l).
Proof.
  induction 1 as [|x l Hs IH Hall]; simpl; [constructor|].
  apply sort_insert_listing_order; [|done].
  by rewrite array_sort_perm.
Qed.

(** X3. The metadata listing is fully ordered: newer documents first, and
    documents added at the same instant by ascending id (the sort is stable
    and the cursor walks the store in key order).  It has one entry per
    stored document and no id twice. *)
Theorem getAllPdfMetadata_order_is_total (db : DB) (n : nat) :
  keyed PdfFile.id (files db) →
  ∃ result,
    getAllPdfMetadata (size (files db) + n) db = Some result ∧
    StronglySorted listing_order result ∧
    length result = size (files db) ∧
    NoDup (PdfMetadata.id <$> result).
Proof.
  intros Hk. eexists. split; [apply getAllPdfMetadata_eq|].
  pose proof (os_getAll_sorted PdfFile.id (files db) Hk) as Hs.
  assert (StronglySorted
            (λ a b, strict String.le (PdfMetadata.id a) (PdfMetadata.id b))
            (omit_blob <$> os_getAll (files db))) as Hs'.
  { by apply (StronglySorted_fmap omit_blob
                (λ v w, strict String.le (PdfFile.id v) (PdfFile.id w))). }
  split; [by apply array_sort_listing_order|]. split.
  - rewrite array_sort_perm, length_fmap. unfold os_getAll.
    by rewrite length_fmap, os_entries_length.
  - rewrite array_sort_perm.
    clear Hs. induction Hs' as [|x l Hs' IH Hall]; csimpl; [constructor|].
    constructor; [|done]. intros Hin.
    apply list_elem_of_fmap in Hin as [y [Hy Hin]].
    rewrite Forall_forall in Hall. destruct (Hall y Hin) as [_ Hne].
    apply Hne. by rewrite Hy.
Qed.

Lemma getAllPdfMetadata_order_is_total_witness :
  ∃ result,
    getAllPdfMetadata (size (files ex_db) + 0) ex_db = Some result ∧
    StronglySorted listing_order result ∧
    length result = size (files ex_db) ∧
    NoDup (PdfMetadata.id <$> result).
Proof.
  apply (getAllPdfMetadata_order_is_total ex_db 0). apply ex_db_wf.
Defined.

(** X4. With the categories stored under their own ids, [getCategories]
    lists exactly the stored categories, in ascending order of id. *)
Theorem getCategories_sorted_exact (db : DB) :
  keyed Category.id (categories db) →
  StronglySorted
    (λ a b, strict String.le (Category.id a) (Category.id b))
    (getCategories db) ∧
  (∀ cat, cat ∈ getCategories db ↔
          categories db !! Category.id cat = Some cat).
Proof.
  intros Hk. split; [by apply os_getAll_sorted|].
  intros cat. unfold getCategories. rewrite elem_of_os_getAll. split.
  - intros [k H]. by rewrite (Hk _ _ H).
  - intros H. by eexists.
Qed.

Lemma getCategories_sorted_exact_witness :
  StronglySorted
    (λ a b, strict String.le (Category.id a) (Category.id b))
    (getCategories ex_db) ∧
  (∀ cat, cat ∈ getCategories ex_db ↔
          categories ex_db !! Category.id cat = Some cat).
Proof. apply (getCategories_sorted_exact ex_db). apply ex_db_wf. Defined.

(** ** How the operations compose *)

Lemma uncategorize_idemp c f : uncategorize c (uncategorize c f) = uncategorize c f.
Proof.
  unfold uncategorize. by repeat case_decide.
Qed.

(** X5. Deleting a category a second time changes nothing: the first call
    has removed the category and left no document that refers to it. *)
Theorem deleteCategory_twice (db : DB) (c : string) (n m : nat) :
  deleteCategory (size (files db) + n) c db
    ≫= deleteCategory (size (files db) + m) c
  = deleteCategory (size (files db) + n) c db.
Proof.
  rewrite deleteCategory_eq. simpl.
  pose (db' := mkDB (uncategorize c <$> files db) (delete c (categories db))).
  assert (size (files db) = size (files db')) as ->
    by (simpl; by rewrite map_size_fmap).
  fold db'. rewrite deleteCategory_eq. f_equal. unfold db'; simpl.
  f_equal; [|apply delete_delete_eq].
  apply map_eq. intros i. rewrite !lookup_fmap.
  destruct (files db !! i); simpl; [|done]. by rewrite uncategorize_idemp.
Qed.

Lemma updatePdfProgress_alter db id page total now :
  keyed PdfFile.id (files db) →
  files (updatePdfProgress id page total now db)
  = alter (progressed page total now) id (files db).
Proof.
  intros Hk. rewrite updatePdfProgress_files.
  destruct (files db !! id) as [f|] eqn:E.
  - rewrite (Hk _ _ E). apply map_eq. intros j.
    rewrite lookup_insert, lookup_alter. case_decide; [|done].
    by rewrite E.
  - by rewrite alter_id'.
Qed.

Lemma updatePdfCategory_alter db id c :
  keyed PdfFile.id (files db) →
  files (updatePdfCategory id c db)
  = alter (PdfFile.set_categoryId c) id (files db).
Proof.
  intros Hk. rewrite updatePdfCategory_files.
  destruct (files db !! id) as [f|] eqn:E.
  - rewrite (Hk _ _ E). apply map_eq. intros j.
    rewrite lookup_insert, lookup_alter. case_decide; [|done].
    by rewrite E.
  - by rewrite alter_id'.
Qed.

(** X6. A progress update and a move to a category commute, on the same
    document or on two different ones: they assign different fields and
    each writes back the record it has just read. *)
Theorem progress_and_category_commute (db : DB) (i j : string)
    (c : option string) (page : Z) (total : option Z) (now : Z) :
  keyed PdfFile.id (files db) →
  updatePdfCategory i c (updatePdfProgress j page total now db)
  = updatePdfProgress j page total now (updatePdfCategory i c db).
Proof.
  intros Hk. apply DB_ext.
  - rewrite updatePdfCategory_alter by (by apply updatePdfProgress_keyed).
    rewrite updatePdfProgress_alter by done.
    rewrite updatePdfProgress_alter by (by apply updatePdfCategory_keyed).
    rewrite updatePdfCategory_alter by done.
    apply map_eq. intros k.
    repeat (rewrite lookup_alter || case_decide); subst; try done.
    by destruct (files db !! k).
  - by rewrite updatePdfCategory_categories, !updatePdfProgress_categories,
               updatePdfCategory_categories.
Qed.

Lemma progress_and_category_commute_witness :
  updatePdfCategory "f1" None (updatePdfProgress "f1" 3 (Some 8) 50 ex_db)
  = updatePdfProgress "f1" 3 (Some 8) 50 (updatePdfCategory "f1" None ex_db).
Proof.
  apply (progress_and_category_commute ex_db "f1" "f1" None 3 (Some 8) 50).
  apply ex_db_wf.
Defined.

(** ** Opening the database again *)

Lemma run_from_returning evs :
  let st := run_from returning_world evs in
  Forall (λ p, p = 0%nat) st.2 ∧
  (st.1 = returning_world ∨
   st.1 = Init.mkWorld (Some 0%nat) 1 [(0%nat, Init.DB_VERSION)] ∅
            Init.DB_VERSION (Init.h_stores Init.full_handle) 0 ∨
   st.1 = Init.mkWorld (Some 0%nat) 1 [] (<[0%nat := Init.full_handle]> ∅)
            Init.DB_VERSION (Init.h_stores Init.full_handle) 0).
Proof.
  unfold run_from. induction evs as [|ev evs IH] using rev_ind; simpl.
  - split; [constructor|by left].
  - rewrite foldl_app. simpl.
    destruct (foldl Init.step (returning_world, []) evs) as [w rets].
    simpl in IH. destruct IH as [Hall [-> | [-> | ->]]];
      destruct ev; simpl; (split; [|auto]);
      try done; apply Forall_app; split; try done; by repeat constructor.
Qed.

(** X7. On a page load that finds the database already at the current
    version, whatever the schedule of [getDB()] calls and engine steps:
    [upgrade] does not run, the object stores stay as they are, every call
    returns the same promise, and the promise, once fulfilled, carries the
    connection to the existing stores. *)
Theorem reopening_keeps_the_stores (evs : list Init.Event) :
  let w := (run_from returning_world evs).1 in
  Init.upgrades w = 0%nat ∧
  Init.schema w = Init.h_stores Init.full_handle ∧
  Init.version w = Init.DB_VERSION ∧
  Forall (λ p, p = 0%nat) (run_from returning_world evs).2 ∧
  match Init.settled w !! 0%nat with
  | Some h => h = Init.full_handle
  | None => True
  end.
Proof.
  destruct (run_from_returning evs) as [Hall [E | [E | E]]];
    simpl; rewrite E; by repeat split.
Qed.

(** ** String methods *)

Lemma blank_app s t : blank s → blank t → blank (s ++ t).
Proof. induction s as [|a s IH]; simpl; [done|]. intros [? ?] ?. auto. Qed.

Lemma trimStart_split s : ∃ pre, s = pre ++ trimStart s ∧ blank pre.
Proof.
  induction s as [|a s (pre & E & Hb)]; simpl; [by exists []|].
  destruct (is_white_space a) eqn:Ha.
  - exists (a :: pre). split; [|done]. simpl. by f_equal.
  - by exists [].
Qed.

Lemma trimEnd_split s : ∃ post, s = trimEnd s ++ post ∧ blank post.
Proof.
  induction s as [|a s (post & E & Hb)]; simpl; [by exists []|].
  destruct (trimEnd s) as [|b t] eqn:Et; simpl in *.
  - destruct (is_white_space a) eqn:Ha.
    + exists (a :: s). split; [done|]. split; [done|]. by rewrite E.
    + exists post. split; [|done]. by f_equal.
  - exists post. split; [|done]. by f_equal.
Qed.

Lemma trimEnd_cons a s :
  trimEnd (a :: s)
  = match trimEnd s with
    | [] => if is_white_space a then [] else [a]
    | t => a :: t
    end.
Proof. done. Qed.

Lemma trimEnd_idemp s : trimEnd (trimEnd s) = trimEnd s.
Proof.
  induction s as [|a s IH]; [done|]. rewrite trimEnd_cons.
  destruct (trimEnd s) as [|b t] eqn:Et.
  - destruct (is_white_space a) eqn:Ha; [done|]. simpl. by rewrite Ha.
  - rewrite trimEnd_cons. by rewrite IH.
Qed.

(** [trimEnd] returns the empty text or ends at a code unit that is not
    white space. *)
Lemma trimEnd_last s :
  trimEnd s = [] ∨ ∃ z, last (trimEnd s) = Some z ∧ is_white_space z = false.
Proof.
  induction s as [|a s IH]; [by left|]. rewrite trimEnd_cons.
  destruct (trimEnd s) as [|b t] eqn:Et.
  - destruct (is_white_space a) eqn:Ha; [by left|]. right. by exists a.
  - right. destruct IH as [IH|(z & Hz & Hw)]; [done|]. exists z.
    split; [|done]. by rewrite last_cons, Hz.
Qed.

(** [trim] removes white space from the two ends and nothing else: the
    input is a blank prefix, the result, and a blank suffix; the result is
    empty or begins and ends with code units that are not white space;
    trimming the result again changes nothing; and the result is empty
    exactly for a blank input. *)
Lemma trim_spec (s : text) :
  (∃ pre post, s = pre ++ trim s ++ post ∧ blank pre ∧ blank post) ∧
  (trim s = [] ∨
   (∃ a, head (trim s) = Some a ∧ is_white_space a = false) ∧
   (∃ z, last (trim s) = Some z ∧ is_white_space z = false)) ∧
  trim (trim s) = trim s ∧
  (trim s = [] ↔ blank s).
Proof.
  split; [|split; [|split; [|apply trim_empty_iff]]].
  - destruct (trimStart_split s) as (pre & E1 & Hpre).
    destruct (trimEnd_split (trimStart s)) as (post & E2 & Hpost).
    exists pre, post. unfold trim. by rewrite <- E2.
  - destruct (trim_head s) as [E|(a & t & E & Ha)]; [by left|]. right.
    split; [exists a; by rewrite E|].
    unfold trim in *. destruct (trimEnd_last (trimStart s)) as [E'|H];
      [congruence|done].
  - unfold trim.
    destruct (trimStart_head s) as [E|(a & t & E & Ha)]; rewrite E.
    + done.
    + destruct (trimEnd_head a t Ha) as [t' Et].
      assert (trimStart (trimEnd (a :: t)) = trimEnd (a :: t)) as ->.
      { rewrite Et. simpl. by rewrite Ha. }
      apply trimEnd_idemp.
Qed.

Lemma starts_with_spec q s : starts_with q s = true ↔ ∃ post, s = q ++ post.
Proof.
  revert s. induction q as [|a q IH]; intros s; destruct s as [|b s]; simpl.
  - split; [by exists []|done].
  - split; [by exists (b :: s)|done].
  - split; [done|by intros [? ?]].
  - rewrite andb_true_iff, N.eqb_eq, IH. split.
    + intros [-> [post ->]]. by exists post.
    + intros [post [= -> ->]]. split; [done|by exists post].
Qed.

Lemma includes_unfold q s :
  includes q s
  = starts_with q s ||
    match s with [] => false | _ :: s' => includes q s' end.
Proof. by destruct s. Qed.

(** [includes q s] holds exactly when [q] occurs in [s] as a contiguous
    piece; in particular the empty text occurs in every text. *)
Lemma includes_spec (q s : text) :
  includes q s = true ↔ ∃ pre post, s = pre ++ q ++ post.
Proof.
  split.
  - induction s as [|a s IH]; rewrite includes_unfold, orb_true_iff.
    + intros [H|H]; [|done]. apply starts_with_spec in H as [post E].
      by exists [], post.
    + intros [H|H].
      * apply starts_with_spec in H as [post E]. by exists [], post.
      * destruct (IH H) as (pre & post & E).
        exists (a :: pre), post. simpl. by f_equal.
  - intros (pre & post & ->). induction pre as [|a pre IH].
    + rewrite includes_unfold, orb_true_iff. left.
      apply starts_with_spec. by exists post.
    + rewrite <- app_comm_cons, includes_unfold, IH. apply orb_true_r.
Qed.

(** X8. A name that is not blank is stored trimmed: the input is a blank
    prefix, the stored name, and a blank suffix, and the stored name begins
    with a code unit that is not white space and ends with one, so no white
    space is left at either end.  The category is written under the
    generated id, appended to the sidebar's list, and the form is reset and
    closed; the documents and the other categories are untouched. *)
Theorem handleAddSubmit_stores_trimmed (uuid : string) (now : Z)
    (sb : SidebarState) (app : AppState) (db : DB) :
  ¬ blank (newCategoryName sb) →
  ∃ name pre post,
    newCategoryName sb = pre ++ name ++ post ∧
    blank pre ∧ blank post ∧
    (∃ a, head name = Some a ∧ is_white_space a = false) ∧
    (∃ z, last name = Some z ∧ is_white_space z = false) ∧
    trim name = name ∧ name ≠ [] ∧
    handleAddSubmit uuid now (sb, (app, db))
    = (mkSidebar false [],
       (mkApp (app_files app)
              (app_categories app ++ [Category.mk uuid name now])
              (activeCategoryId app) (searchQuery app) (sortBy app),
        mkDB (files db)
             (<[uuid := Category.mk uuid name now]> (categories db)))).
Proof.
  intros Hnb. exists (trim (newCategoryName sb)).
  destruct (trim_spec (newCategoryName sb))
    as ((pre & post & E & H1 & H2) & Hends & Hi & Hb).
  assert (trim (newCategoryName sb) ≠ []) as Hne by (by rewrite Hb).
  destruct Hends as [?|[Hhead Hlast]]; [done|].
  exists pre, post. do 6 (split; [done|]). split; [done|].
  unfold handleAddSubmit.
  destruct (trim (newCategoryName sb)) as [|a t]; [done|]. done.
Qed.

Lemma handleAddSubmit_stores_trimmed_witness :
  ∃ name pre post,
    [12288; 32; 83; 99; 105; 32; 70; 105; 8195; 9]%N = pre ++ name ++ post ∧
    blank pre ∧ blank post ∧
    (∃ a, head name = Some a ∧ is_white_space a = false) ∧
    (∃ z, last name = Some z ∧ is_white_space z = false) ∧
    trim name = name ∧ name ≠ [] ∧
    handleAddSubmit "u1" 7
      (mkSidebar true [12288; 32; 83; 99; 105; 32; 70; 105; 8195; 9]%N,
       (mkApp [] [ex_cat] (Some "all") [] added_desc, ex_db))
    = (mkSidebar false [],
       (mkApp [] ([ex_cat] ++ [Category.mk "u1" name 7])
              (Some "all") [] added_desc,
        mkDB (files ex_db)
             (<["u1" := Category.mk "u1" name 7]> (categories ex_db)))).
Proof.
  apply (handleAddSubmit_stores_trimmed "u1" 7
           (mkSidebar true [12288; 32; 83; 99; 105; 32; 70; 105; 8195; 9]%N)
           (mkApp [] [ex_cat] (Some "all") [] added_desc) ex_db).
  simpl. intros (_ & _ & H & _). discriminate H.
Defined.

(** White space inside a name stays, white space of any kind around it
    goes. *)
Example trim_example :
  trim [12288; 32; 83; 99; 105; 32; 70; 105; 8195; 9]%N
  = [83; 99; 105; 32; 70; 105]%N.
Proof. reflexivity. Qed.

(** ** The library view *)

Lemma elem_of_categoryFilter (active : option string)
    (files : list PdfMetadata.t) (f : PdfMetadata.t) :
  f ∈ categoryFilter active files ↔
  f ∈ files ∧
  (active = Some "uncategorized" →
   PdfMetadata.categoryId f = None ∨ PdfMetadata.categoryId f = Some "") ∧
  (∀ c, active = Some c → c ≠ "" → c ≠ "all" → c ≠ "uncategorized" →
        PdfMetadata.categoryId f = Some c).
Proof.
  destruct (decide (active = Some "uncategorized")) as [->|Hu].
  - rewrite categoryFilter_uncategorized, list_elem_of_filter. split.
    + intros [H1 H2]. split; [done|]. split; [done|]. by intros c [= <-].
    + intros (H1 & H2 & _). split; [by apply H2|done].
  - unfold categoryFilter. rewrite bool_decide_eq_false_2 by done.
    destruct active as [c|]; simpl.
    + destruct c as [|a c']; simpl.
      * split; [|by intros [? _]]. intros H. split; [done|].
        split; [done|]. by intros c [= <-].
      * case_bool_decide as Hall.
        -- rewrite list_elem_of_filter. split.
           ++ intros [H1 H2]. split; [done|]. split; [done|].
              by intros c [= <-].
           ++ intros (H1 & _ & H2). split; [|done].
              apply H2; [done|done|congruence|congruence].
        -- split; [|by intros [? _]]. intros H. split; [done|].
           split; [done|]. intros c [= <-] _ Hne. congruence.
    + split; [|by intros [? _]]. intros H. by repeat split.
Qed.

(** X9. What the library view shows: a record is listed exactly when it
    is in [files], passes the category selector (under ["uncategorized"] its
    [categoryId] is [null] or empty; under an id other than the selector
    values it has that id) and, when the search box is not blank, its
    lower-cased name contains the lower-cased query, as typed and
    untrimmed, as a contiguous piece.
    The view never lists a record more often than [files] holds it. *)
Theorem filteredFiles_membership
    (toLowerCase : text → text) (localeCompare : text → text → Z)
    (st : AppState) :
  (∀ f, f ∈ filteredFiles toLowerCase localeCompare st ↔
     f ∈ app_files st ∧
     (activeCategoryId st = Some "uncategorized" →
      PdfMetadata.categoryId f = None ∨ PdfMetadata.categoryId f = Some "") ∧
     (∀ c, activeCategoryId st = Some c →
           c ≠ "" → c ≠ "all" → c ≠ "uncategorized" →
           PdfMetadata.categoryId f = Some c) ∧
     (trim (searchQuery st) ≠ [] →
      ∃ pre post,
        toLowerCase (PdfMetadata.name f)
        = pre ++ toLowerCase (searchQuery st) ++ post)) ∧
  filteredFiles toLowerCase localeCompare st ⊆+ app_files st.
Proof.
  split.
  - intros f. setoid_rewrite <- includes_spec.
    unfold filteredFiles. rewrite array_sort_perm.
    unfold searchFilter.
    destruct (trim (searchQuery st)) as [|a t] eqn:Eq; simpl.
    + rewrite elem_of_categoryFilter. split.
      * intros (H1 & H2 & H3). by repeat split.
      * intros (H1 & H2 & H3 & _). by repeat split.
    + rewrite list_elem_of_filter, elem_of_categoryFilter. split.
      * intros (H0 & H1 & H2 & H3). by repeat split.
      * intros (H1 & H2 & H3 & H0). split; [by apply H0|by repeat split].
  - unfold filteredFiles. rewrite array_sort_perm.
    apply sublist_submseteq.
    transitivity (categoryFilter (activeCategoryId st) (app_files st)).
    + unfold searchFilter.
      destruct (truthy_text (trim (searchQuery st)));
        [apply sublist_filter|reflexivity].
    + unfold categoryFilter. repeat case_match;
        [apply sublist_filter|apply sublist_filter|reflexivity].
Qed.

Lemma array_sort_Z_sorted {A} (h : A → A → Z) (R : relation A) (l : list A) :
  (∀ a b, h a b ≤ 0 ↔ R a b) →
  (∀ a b, R a b ∨ R b a) →
  (∀ a b c, R a b → R b c → R a c) →
  StronglySorted R (array_sort (λ a b, inject_Z (h a b)) l).
Proof.
  intros HR Htot Htrans.
  assert (∀ a b, cmp_le (λ a b, inject_Z (h a b)) a b ↔ R a b) as Hle.
  { intros a b. unfold cmp_le. rewrite Qle_bool_iff.
    change 0%Q with (inject_Z 0). by rewrite <- Zle_Qle. }
  apply (StronglySorted_weaken (cmp_le (λ a b, inject_Z (h a b)))).
  - intros a b. apply Hle.
  - apply array_sort_sorted.
    + intros a b. rewrite !Hle. apply Htot.
    + intros a b c. rewrite !Hle. apply Htrans.
Qed.

(** X10. The sort options on the date added and on the size order the
    view as they say: newest first, oldest first, largest first. *)
Theorem filteredFiles_sorted
    (toLowerCase : text → text) (localeCompare : text → text → Z)
    (st : AppState) :
  let view := filteredFiles toLowerCase localeCompare st in
  match sortBy st with
  | added_desc =>
      StronglySorted
        (λ a b, PdfMetadata.addedAt b ≤ PdfMetadata.addedAt a) view
  | added_asc =>
      StronglySorted
        (λ a b, PdfMetadata.addedAt a ≤ PdfMetadata.addedAt b) view
  | size_desc =>
      StronglySorted (λ a b, PdfMetadata.size b ≤ PdfMetadata.size a) view
  | progress_desc | name_asc | name_desc => True
  end.
Proof.
  unfold filteredFiles. destruct (sortBy st); simpl; try done.
  - apply array_sort_Z_sorted; intros; lia.
  - apply array_sort_Z_sorted; intros; lia.
  - apply array_sort_Z_sorted; intros; lia.
Qed.

(** The progress option compares quotients of numbers, which are rounded:
    page 134217727 of 134217728 and page 134217728 of 134217729 give the
    same number, so the two records tie and the sort leaves them in the
    order it found them, whichever that is; a record further along by a
    margin the numbers can tell apart goes first. *)
Example progress_sort_on_doubles :
  let m id page pages := PdfMetadata.mk id (txt "x.pdf") None 1 None page pages 4 in
  let ra := m "a" 134217727 134217728 in
  let rb := m "b" 134217728 134217729 in
  let rc := m "c" 3 4 in
  let rd := m "d" 1 2 in
  let view l :=
    filteredFiles (λ s, s) (λ _ _, 0) (mkApp l [] (Some "all") [] progress_desc)
  in
  progress ra = progress rb ∧
  view [ra; rb] = [ra; rb] ∧
  view [rb; ra] = [rb; ra] ∧
  view [rd; rc; ra] = [ra; rc; rd] ∧
  progress rc = S754_finite false 6755399441055744 (-53) ∧
  progress (m "e" 5 0) = S754_zero false.
Proof. vm_compute. repeat split. Qed.

(** ** The shell's lists and the database *)

Section Values.
Context {V : Type} (keyPath : V → string).
Implicit Types (m : gmap string V).

Lemma keyed_values_lookup m v :
  keyed keyPath m → v ∈ (map_to_list m).*2 → m !! keyPath v = Some v.
Proof.
  intros Hk Hin. apply list_elem_of_fmap in Hin as [[k w] [-> Hin]].
  apply elem_of_map_to_list in Hin. simpl. by rewrite (Hk _ _ Hin).
Qed.

Lemma values_delete_Some m i x :
  m !! i = Some x →
  (map_to_list m).*2 ≡ₚ x :: (map_to_list (delete i m)).*2.
Proof. intros H. by rewrite <- (map_to_list_delete m i x H). Qed.

Lemma values_insert_None m i x :
  m !! i = None →
  (map_to_list (<[i:=x]> m)).*2 ≡ₚ x :: (map_to_list m).*2.
Proof. intros H. by rewrite (map_to_list_insert m i x H). Qed.

Lemma values_alter m i f x :
  m !! i = Some x →
  (map_to_list (alter f i m)).*2 ≡ₚ f x :: (map_to_list (delete i m)).*2.
Proof.
  intros H.
  assert (alter f i m = <[i := f x]> (delete i m)) as ->.
  { apply map_eq. intros j. rewrite lookup_alter, lookup_insert.
    case_decide; [by rewrite H|]. by rewrite lookup_delete_ne. }
  apply values_insert_None, lookup_delete_eq.
Qed.

Lemma filter_all {A} (P : A → Prop) `{∀ x, Decision (P x)} (l : list A) :
  Forall P l → filter P l = l.
Proof.
  induction 1 as [|x l Hx Hl IH]; [done|].
  by rewrite filter_cons_True, IH.
Qed.

Lemma values_without m i :
  keyed keyPath m →
  Forall (λ v, keyPath v ≠ i) (map_to_list (delete i m)).*2.
Proof.
  intros Hk. apply Forall_forall. intros v Hin.
  apply (keyed_values_lookup (delete i m)) in Hin;
    [|by apply (keyed_delete keyPath)].
  intros <-. by rewrite lookup_delete_eq in Hin.
Qed.

Lemma filter_values_delete m i :
  keyed keyPath m →
  filter (λ v, keyPath v ≠ i) (map_to_list m).*2
  ≡ₚ (map_to_list (delete i m)).*2.
Proof.
  intros Hk. destruct (m !! i) as [x|] eqn:E.
  - rewrite (values_delete_Some m i x E).
    rewrite filter_cons_False by (intros Hne; apply Hne; by apply Hk).
    by rewrite filter_all by (by apply values_without).
  - pose proof (values_without m i Hk) as Hall.
    rewrite delete_id in Hall |- * by done. by rewrite filter_all.
Qed.
End Values.

Lemma filter_omit_blob (i : string) (l : list PdfFile.t) :
  filter (λ f, PdfMetadata.id f ≠ i) (omit_blob <$> l)
  = omit_blob <$> filter (λ v, PdfFile.id v ≠ i) l.
Proof.
  induction l as [|v l IH]; [done|]. csimpl.
  destruct (decide (PdfFile.id v = i)) as [E|E].
  - rewrite !filter_cons_False by (simpl; naive_solver). done.
  - rewrite !filter_cons_True by done. csimpl. by rewrite IH.
Qed.

Lemma getAllPdfMetadata_ge (db : DB) (fuel : nat) :
  (size (files db) ≤ fuel)%nat →
  getAllPdfMetadata fuel db
  = Some (array_sort by_addedAt_desc (omit_blob <$> os_getAll (files db))).
Proof.
  intros H. replace fuel with (size (files db) + (fuel - size (files db)))%nat
    by lia.
  apply getAllPdfMetadata_eq.
Qed.

Lemma listing_in_sync (db : DB) :
  array_sort by_addedAt_desc (omit_blob <$> os_getAll (files db))
  ≡ₚ omit_blob <$> (map_to_list (files db)).*2.
Proof. by rewrite array_sort_perm, os_getAll_perm. Qed.

(** X11. Deleting a book keeps the shown list equal to the stored
    documents: the list loses exactly the entries with that id, the
    database loses the record, and the book can no longer be opened. *)
Theorem deletePdfById_keeps_sync (id : string) (st : Shell * DB) :
  keyed PdfFile.id (files st.2) →
  files_in_sync st →
  files_in_sync (deletePdfById id st) ∧
  (∀ f, f ∈ app_files (app (deletePdfById id st).1) → PdfMetadata.id f ≠ id) ∧
  getPdfById id (deletePdfById id st).2 = None ∧
  handleOpenPdf id (deletePdfById id st) = deletePdfById id st.
Proof.
  intros Hk Hs. unfold files_in_sync, deletePdfById in *; simpl.
  split; [|split; [|split]].
  - rewrite Hs, filter_omit_blob.
    by rewrite (filter_values_delete PdfFile.id).
  - intros f Hf. by apply list_elem_of_filter in Hf as [? _].
  - apply lookup_delete_eq.
  - unfold handleOpenPdf, getPdfById, os_get, deletePdf, os_delete; simpl.
    by rewrite lookup_delete_eq.
Qed.

Lemma deletePdfById_keeps_sync_witness :
  files_in_sync
    (deletePdfById "f2"
       (mkShell (mkApp (omit_blob <$> [ex_file1; ex_file2; ex_file3]) []
                       (Some "all") [] added_desc)
                library None None false false, ex_db)).
Proof.
  apply (deletePdfById_keeps_sync "f2"
           (mkShell (mkApp (omit_blob <$> [ex_file1; ex_file2; ex_file3]) []
                           (Some "all") [] added_desc)
                    library None None false false, ex_db)).
  - apply ex_db_wf.
  - unfold files_in_sync; simpl.
    rewrite <- os_getAll_perm. by vm_compute.
Defined.

Lemma move_fmap_omit_blob (i : string) (c : option string)
    (l : list PdfFile.t) :
  Forall (λ v, PdfFile.id v ≠ i) l →
  (λ f, if bool_decide (PdfMetadata.id f = i) then with_categoryId c f else f)
    <$> (omit_blob <$> l)
  = omit_blob <$> l.
Proof.
  induction 1 as [|v l Hv Hl IH]; [done|]. csimpl.
  rewrite IH. by rewrite bool_decide_eq_false_2.
Qed.

(** X12. Moving a book to a category keeps the shown list equal to the
    stored documents: the list entry and the stored record get the same
    [categoryId], and a move of an id that is not stored changes neither. *)
Theorem handleMoveToCategory_keeps_sync (pdfId : string)
    (catId : option string) (st : Shell * DB) :
  keyed PdfFile.id (files st.2) →
  files_in_sync st →
  files_in_sync (handleMoveToCategory pdfId catId st) ∧
  (files st.2 !! pdfId = None →
   (handleMoveToCategory pdfId catId st).2 = st.2 ∧
   app_files (app (handleMoveToCategory pdfId catId st).1)
   = app_files (app st.1)).
Proof.
  intros Hk Hs. unfold files_in_sync, handleMoveToCategory in *; simpl.
  rewrite updatePdfCategory_alter by done.
  destruct (files st.2 !! pdfId) as [x|] eqn:E.
  - split; [|done].
    rewrite (values_alter _ _ _ x E), Hs, (values_delete_Some _ _ x E).
    csimpl. rewrite bool_decide_eq_true_2 by (by apply Hk).
    rewrite move_fmap_omit_blob by (by apply (values_without PdfFile.id)).
    done.
  - assert (Forall (λ v, PdfFile.id v ≠ pdfId) (map_to_list (files st.2)).*2)
      as Hall.
    { pose proof (values_without PdfFile.id (files st.2) pdfId Hk) as H.
      by rewrite delete_id in H. }
    assert (Forall (λ f, PdfMetadata.id f ≠ pdfId) (app_files (app st.1)))
      as Hall'.
    { rewrite Hs. apply Forall_fmap. eapply Forall_impl; [exact Hall|done]. }
    assert ((λ f, if bool_decide (PdfMetadata.id f = pdfId)
                  then with_categoryId catId f else f)
            <$> app_files (app st.1) = app_files (app st.1)) as Hid.
    { clear Hs. induction Hall' as [|f l Hf Hl IH]; [done|]. csimpl.
      by rewrite IH, bool_decide_eq_false_2. }
    rewrite Hid, alter_id' by done. split; [done|]. intros _. split; [|done].
    apply DB_ext; [|apply updatePdfCategory_categories].
    by rewrite updatePdfCategory_files, E.
Qed.

Lemma handleMoveToCategory_keeps_sync_witness :
  files_in_sync
    (handleMoveToCategory "f3" (Some "c1")
       (mkShell (mkApp (omit_blob <$> [ex_file1; ex_file2; ex_file3]) []
                       (Some "all") [] added_desc)
                library None None false false, ex_db)).
Proof.
  apply (handleMoveToCategory_keeps_sync "f3" (Some "c1")
           (mkShell (mkApp (omit_blob <$> [ex_file1; ex_file2; ex_file3]) []
                           (Some "all") [] added_desc)
                    library None None false false, ex_db)).
  - apply ex_db_wf.
  - unfold files_in_sync; simpl.
    rewrite <- os_getAll_perm. by vm_compute.
Defined.

(** X13. Closing the reader always brings the shell back to the library
    with no open document and reloads the list from the database: whatever
    the list held before, afterwards it equals the stored documents, newest
    first.  The database is not written. *)
Theorem handleCloseReader_reloads (st : Shell * DB) (n : nat) :
  ∃ st',
    handleCloseReader (size (files st.2) + n) st = Some st' ∧
    st'.2 = st.2 ∧
    viewState st'.1 = library ∧
    readerFile st'.1 = None ∧
    activePdfId st'.1 = None ∧
    files_in_sync st' ∧
    StronglySorted (λ a b, PdfMetadata.addedAt b ≤ PdfMetadata.addedAt a)
                   (app_files (app st'.1)).
Proof.
  unfold handleCloseReader. rewrite getAllPdfMetadata_eq. simpl.
  eexists. split; [done|]. simpl. repeat split.
  - apply listing_in_sync.
  - apply (array_sort_Z_sorted
             (λ a b, PdfMetadata.addedAt b - PdfMetadata.addedAt a));
      intros; lia.
Qed.

(** X14. Adding a category under an id that is not stored yet keeps the
    sidebar's list equal to the stored categories, and touches neither the
    documents nor the list of books. *)
Theorem shell_addCategory_keeps_sync (uuid : string) (now : Z)
    (name : text) (st : Shell * DB) :
  categories st.2 !! uuid = None →
  categories_in_sync st →
  categories_in_sync (shell_addCategory uuid now name st) ∧
  files (shell_addCategory uuid now name st).2 = files st.2 ∧
  app_files (app (shell_addCategory uuid now name st).1)
  = app_files (app st.1).
Proof.
  intros Hnew Hs. unfold categories_in_sync, shell_addCategory in *; simpl.
  split; [|done]. unfold os_put; simpl.
  rewrite values_insert_None by done.
  rewrite <- Hs. by rewrite Permutation_app_comm.
Qed.

Lemma shell_addCategory_keeps_sync_witness :
  categories_in_sync
    (shell_addCategory "c2" 9 (txt "Maths")
       (mkShell (mkApp [] [ex_cat] (Some "all") [] added_desc)
                library None None false false, ex_db)).
Proof.
  apply (shell_addCategory_keeps_sync "c2" 9 (txt "Maths")
           (mkShell (mkApp [] [ex_cat] (Some "all") [] added_desc)
                    library None None false false, ex_db)).
  - by vm_compute.
  - unfold categories_in_sync; simpl.
    rewrite <- os_getAll_perm. by vm_compute.
Defined.

(** X15. The initial load fills both lists from the database and clears
    [loading]: afterwards the list of books equals the stored documents and
    the sidebar's list equals the stored categories, whatever the lists
    held before. *)
Theorem initialLoad_establishes_sync (st : Shell * DB) (n : nat) :
  ∃ st',
    initialLoad (size (files st.2) + n) st = Some st' ∧
    st'.2 = st.2 ∧
    loading st'.1 = false ∧
    files_in_sync st' ∧
    categories_in_sync st'.
Proof.
  unfold initialLoad. rewrite getAllPdfMetadata_eq. simpl.
  eexists. split; [done|]. simpl. repeat split.
  - apply listing_in_sync.
  - unfold categories_in_sync, getCategories; simpl. apply os_getAll_perm.
Qed.

(** X16. A confirmed [handleDeleteCategory id] leaves nothing in the shell
    that refers to the category: the sidebar's list holds no category with
    that id, the list of books is reloaded and holds no book of that
    category, and the selection falls back to ["all"] when it was on the
    deleted category.  The reloaded list equals the stored documents, and
    the sidebar's list stays equal to the stored categories.  A dismissed
    dialog changes nothing. *)
Theorem handleDeleteCategory_leaves_no_reference (id : string)
    (st : Shell * DB) (n : nat) :
  handleDeleteCategory (size (files st.2) + n) false id st = Some st ∧
  ∃ st',
    handleDeleteCategory (size (files st.2) + n) true id st = Some st' ∧
    deleteCategory (size (files st.2) + n) id st.2 = Some st'.2 ∧
    (∀ c, c ∈ app_categories (app st'.1) → Category.id c ≠ id) ∧
    (∀ f, f ∈ app_files (app st'.1) → PdfMetadata.categoryId f ≠ Some id) ∧
    activeCategoryId (app st'.1)
    = (if bool_decide (activeCategoryId (app st.1) = Some id)
       then Some "all" else activeCategoryId (app st.1)) ∧
    files_in_sync st' ∧
    (keyed Category.id (categories st.2) → categories_in_sync st →
     categories_in_sync st').
Proof.
  split; [done|]. unfold handleDeleteCategory.
  rewrite deleteCategory_eq. simpl.
  rewrite getAllPdfMetadata_ge by (simpl; rewrite map_size_fmap; lia). simpl.
  eexists. split; [done|]. simpl.
  assert (∀ sh : Shell,
            app_files (app (if bool_decide (activeCategoryId (app st.1) = Some id)
                            then set_activeCategoryId (Some "all") sh else sh))
            = app_files (app sh)) as Hf by (intros; by case_bool_decide).
  assert (∀ sh : Shell,
            app_categories
              (app (if bool_decide (activeCategoryId (app st.1) = Some id)
                    then set_activeCategoryId (Some "all") sh else sh))
            = app_categories (app sh)) as Hc by (intros; by case_bool_decide).
  split; [done|]. split; [|split; [|split; [|split]]].
  - intros c. rewrite Hc. simpl. rewrite list_elem_of_filter. by intros [? _].
  - intros f. rewrite Hf. simpl. rewrite array_sort_perm.
    unfold os_getAll. intros Hin.
    apply list_elem_of_fmap in Hin as [v [-> Hin]].
    apply list_elem_of_fmap in Hin as [[k w] [-> Hin]].
    apply elem_of_os_entries in Hin. rewrite lookup_fmap in Hin.
    destruct (files st.2 !! k) as [g|]; simpl in *; [|done].
    injection Hin as <-. unfold uncategorize.
    destruct (decide (PdfFile.categoryId g = Some id)); simpl; done.
  - by case_bool_decide.
  - unfold files_in_sync. simpl. rewrite Hf. simpl.
    by rewrite array_sort_perm, os_getAll_perm.
  - intros Hk Hs. unfold categories_in_sync in *. simpl. rewrite Hc. simpl.
    rewrite Hs. by apply (filter_values_delete Category.id).
Qed.

(** X17. Deleting the open book from the reader removes the record,
    returns to the library with no open document, and reloads the list,
    which then equals the stored documents and holds no entry with the
    deleted id.  With no open document the handler does nothing. *)
Theorem handleReaderDelete_removes_and_closes (st : Shell * DB) (n : nat) :
  keyed PdfFile.id (files st.2) →
  match readerFile st.1 with
  | None => handleReaderDelete (size (files st.2) + n) st = Some st
  | Some rf =>
      ∃ st',
        handleReaderDelete (size (files st.2) + n) st = Some st' ∧
        st'.2 = deletePdf (PdfFile.id rf) st.2 ∧
        viewState st'.1 = library ∧
        readerFile st'.1 = None ∧
        files_in_sync st' ∧
        (∀ f, f ∈ app_files (app st'.1) →
              PdfMetadata.id f ≠ PdfFile.id rf)
  end.
Proof.
  intros Hk. unfold handleReaderDelete.
  destruct (readerFile st.1) as [rf|]; [|done].
  unfold handleCloseReader, deletePdfById. simpl.
  rewrite getAllPdfMetadata_ge.
  2:{ simpl. unfold os_delete.
      pose proof (map_subseteq_size _ _ (delete_subseteq (files st.2)
                                           (PdfFile.id rf))).
      lia. }
  simpl. eexists. split; [done|]. simpl. repeat split.
  - unfold files_in_sync. simpl. by rewrite array_sort_perm, os_getAll_perm.
  - intros f Hin Hid. rewrite array_sort_perm in Hin.
    apply list_elem_of_fmap in Hin as [v [-> Hin]].
    apply elem_of_os_getAll in Hin as [k Hin]. unfold os_delete in Hin.
    assert (PdfFile.id v = k) as Hvk.
    { apply (keyed_delete PdfFile.id (PdfFile.id rf) _ Hk k v Hin). }
    simpl in Hid. rewrite Hid in Hvk. subst k.
    by rewrite lookup_delete_eq in Hin.
Qed.

Lemma handleReaderDelete_removes_and_closes_witness :
  ∃ st',
    handleReaderDelete (size (files ex_db) + 0)
      (mkShell (mkApp [] [] (Some "all") [] added_desc)
               reader (Some "f2") (Some ex_file2) false false, ex_db)
    = Some st' ∧
    st'.2 = deletePdf "f2" ex_db ∧
    viewState st'.1 = library ∧
    readerFile st'.1 = None ∧
    files_in_sync st' ∧
    (∀ f, f ∈ app_files (app st'.1) → PdfMetadata.id f ≠ "f2").
Proof.
  apply (handleReaderDelete_removes_and_closes
           (mkShell (mkApp [] [] (Some "all") [] added_desc)
                    reader (Some "f2") (Some ex_file2) false false, ex_db) 0).
  apply ex_db_wf.
Defined.

(** ** Uploading *)

#[local] Arguments upload_one : simpl never.

Lemma accepted_cons p picks :
  accepted (p :: picks)
  = if decide (file_type p.1 = "application/pdf")
    then p :: accepted picks else accepted picks.
Proof. unfold accepted. by rewrite filter_cons. Qed.

Lemma upload_one_rejected active st file uuid now :
  file_type file ≠ "application/pdf" →
  upload_one active st (file, (uuid, now)) = st.
Proof. intros H. unfold upload_one. by rewrite bool_decide_eq_true_2. Qed.

Lemma upload_one_accepted active st file uuid now :
  file_type file = "application/pdf" →
  upload_one active st (file, (uuid, now))
  = (set_files (omit_blob (new_pdf active file uuid now)
                :: app_files (app st.1)) st.1,
     addPdf (new_pdf active file uuid now) st.2).
Proof.
  intros H. unfold upload_one. rewrite bool_decide_eq_false_2; [done|].
  by intros Hne.
Qed.

Lemma foldl_upload_other active : ∀ picks st k,
  k ∉ (λ p, p.2.1) <$> accepted picks →
  files (foldl (upload_one active) st picks).2 !! k = files st.2 !! k.
Proof.
  induction picks as [|[file [uuid now]] picks IH]; intros st k Hk; [done|].
  simpl. rewrite accepted_cons in Hk. simpl in Hk. case_decide as Ht.
  - rewrite fmap_cons, not_elem_of_cons in Hk. destruct Hk as [Hne Hk].
    rewrite IH by done. rewrite upload_one_accepted by done. simpl.
    unfold os_put. simpl. by rewrite lookup_insert_ne.
  - rewrite IH by done. by rewrite upload_one_rejected.
Qed.

Lemma foldl_upload_lookup active : ∀ picks st file uuid now,
  NoDup ((λ p, p.2.1) <$> accepted picks) →
  (file, (uuid, now)) ∈ accepted picks →
  files (foldl (upload_one active) st picks).2 !! uuid
  = Some (new_pdf active file uuid now).
Proof.
  induction picks as [|[file0 [uuid0 now0]] picks IH];
    intros st file uuid now Hnd Hin.
  - unfold accepted in Hin. by apply elem_of_nil in Hin.
  - simpl. rewrite accepted_cons in Hnd, Hin. simpl in *.
    case_decide as Ht.
    + rewrite fmap_cons in Hnd. apply NoDup_cons in Hnd as [Hfresh Hnd].
      apply elem_of_cons in Hin as [Heq|Hin]; [|by apply IH].
      injection Heq as -> -> ->.
      rewrite foldl_upload_other by done.
      rewrite upload_one_accepted by done. simpl.
      unfold os_put. simpl. apply lookup_insert_eq.
    + rewrite upload_one_rejected by done. by apply IH.
Qed.

Lemma foldl_upload_sync active : ∀ picks st,
  files_in_sync st →
  NoDup ((λ p, p.2.1) <$> accepted picks) →
  (∀ u, u ∈ (λ p, p.2.1) <$> accepted picks → files st.2 !! u = None) →
  files_in_sync (foldl (upload_one active) st picks).
Proof.
  induction picks as [|[file [uuid now]] picks IH]; intros st Hs Hnd Hnew;
    [done|].
  simpl. rewrite accepted_cons in Hnd, Hnew. simpl in *.
  case_decide as Ht.
  - rewrite fmap_cons in Hnd, Hnew. apply NoDup_cons in Hnd as [Hfresh Hnd].
    rewrite upload_one_accepted by done. apply IH; [|done|].
    + unfold files_in_sync in *. simpl. unfold os_put. simpl.
      rewrite values_insert_None by (apply Hnew; by left).
      csimpl. by rewrite Hs.
    + intros u Hu. simpl. unfold os_put. simpl.
      rewrite lookup_insert_ne; [apply Hnew; by right|].
      intros ->. done.
  - rewrite upload_one_rejected by done. by apply IH.
Qed.

Lemma foldl_upload_list active : ∀ picks st,
  app_files (app (foldl (upload_one active) st picks).1)
  = reverse ((λ p, omit_blob (new_pdf active p.1 p.2.1 p.2.2))
             <$> accepted picks)
    ++ app_files (app st.1).
Proof.
  induction picks as [|[file [uuid now]] picks IH]; intros st; [done|].
  simpl. rewrite IH, accepted_cons. simpl. case_decide as Ht.
  - rewrite upload_one_accepted by done. csimpl.
    rewrite reverse_cons, <- app_assoc. done.
  - by rewrite upload_one_rejected.
Qed.

Lemma foldl_upload_categories active : ∀ picks st,
  categories (foldl (upload_one active) st picks).2 = categories st.2.
Proof.
  induction picks as [|[file [uuid now]] picks IH]; intros st; [done|].
  simpl. rewrite IH. unfold upload_one. by case_bool_decide.
Qed.

Lemma handleFileUpload_eq picks st :
  files (handleFileUpload picks st).2
  = files (foldl (upload_one (activeCategoryId (app st.1))) st picks).2 ∧
  categories (handleFileUpload picks st).2 = categories st.2 ∧
  app_files (app (handleFileUpload picks st).1)
  = app_files (app (foldl (upload_one (activeCategoryId (app st.1)))
                          st picks).1).
Proof.
  destruct picks as [|p picks]; [done|].
  unfold handleFileUpload.
  set (active := activeCategoryId (app st.1)).
  assert (∀ l s1 s2, files s1.2 = files s2.2 →
            categories s1.2 = categories s2.2 →
            app_files (app s1.1) = app_files (app s2.1) →
            files (foldl (upload_one active) s1 l).2
            = files (foldl (upload_one active) s2 l).2 ∧
            app_files (app (foldl (upload_one active) s1 l).1)
            = app_files (app (foldl (upload_one active) s2 l).1)) as Hcong.
  { induction l as [|[file [uuid now]] l IH]; intros s1 s2 H1 H2 H3; [done|].
    simpl. apply IH; unfold upload_one; case_bool_decide; simpl;
      try done; by rewrite ?H1, ?H2, ?H3. }
  simpl.
  destruct (Hcong (p :: picks) (set_uploading true st.1, st.2) st)
    as [Hf Ha]; [done|done|done|].
  split; [exact Hf|]. split; [|exact Ha].
  pose proof (foldl_upload_categories active (p :: picks)
                (set_uploading true st.1, st.2)) as Hc.
  exact Hc.
Qed.

(** X18. An upload stores every accepted file (type [application/pdf]),
    provided the generated ids are pairwise distinct: each can be read back
    with its bytes, its name, page 1 of 0 and no last-read time; files of
    another type are skipped; documents under other ids and the categories
    are untouched; the new entries go on top of the list, latest pick
    first. *)
Theorem handleFileUpload_stores_accepted
    (picks : list (File * (string * Z))) (st : Shell * DB) :
  NoDup ((λ p, p.2.1) <$> accepted picks) →
  let active := activeCategoryId (app st.1) in
  let st' := handleFileUpload picks st in
  (∀ file uuid now, (file, (uuid, now)) ∈ accepted picks →
     getPdfById uuid st'.2
     = Some (PdfFile.mk uuid (file_name file) (upload_category active)
               (mkBlob (file_type file) (file_bytes file)) now None 1 0
               (Z.of_nat (length (file_bytes file))))) ∧
  (∀ k, k ∉ (λ p, p.2.1) <$> accepted picks →
        files st'.2 !! k = files st.2 !! k) ∧
  categories st'.2 = categories st.2 ∧
  app_files (app st'.1)
  = reverse ((λ p, omit_blob (new_pdf active p.1 p.2.1 p.2.2))
             <$> accepted picks)
    ++ app_files (app st.1).
Proof.
  intros Hnd active st'. subst st'.
  destruct (handleFileUpload_eq picks st) as (Hf & Hc & Ha).
  split; [|split; [|split]].
  - intros file uuid now Hin. unfold getPdfById, os_get. rewrite Hf.
    by apply (foldl_upload_lookup active).
  - intros k Hk. rewrite Hf. by apply foldl_upload_other.
  - exact Hc.
  - rewrite Ha. apply foldl_upload_list.
Qed.

Lemma handleFileUpload_stores_accepted_witness :
  getPdfById "u1" (handleFileUpload ex_picks (ex_shell, ex_db)).2
  = Some (PdfFile.mk "u1" (txt "d.pdf") (Some "c1")
            (mkBlob "application/pdf" [Byte.x25; Byte.x50]) 41 None 1 0 2).
Proof.
  destruct (handleFileUpload_stores_accepted ex_picks (ex_shell, ex_db))
    as [H _].
  - apply (bool_decide_unpack _). by vm_compute.
  - apply (H (mkFile (txt "d.pdf") "application/pdf" [Byte.x25; Byte.x50]) "u1" 41).
    vm_compute. by left.
Defined.

(** X19. An upload keeps the shown list equal to the stored documents,
    provided the generated ids are pairwise distinct and not in use.  When
    no picked file is a PDF, the database and the list stay as they are. *)
Theorem handleFileUpload_keeps_sync
    (picks : list (File * (string * Z))) (st : Shell * DB) :
  files_in_sync st →
  NoDup ((λ p, p.2.1) <$> accepted picks) →
  (∀ u, u ∈ (λ p, p.2.1) <$> accepted picks → files st.2 !! u = None) →
  files_in_sync (handleFileUpload picks st) ∧
  (accepted picks = [] →
   (handleFileUpload picks st).2 = st.2 ∧
   app_files (app (handleFileUpload picks st).1) = app_files (app st.1)).
Proof.
  intros Hs Hnd Hnew.
  destruct (handleFileUpload_eq picks st) as (Hf & Hc & Ha).
  pose proof (foldl_upload_sync (activeCategoryId (app st.1)) picks st
                Hs Hnd Hnew) as Hsync.
  split.
  - unfold files_in_sync in *. by rewrite Ha, Hf.
  - intros Hnone. split.
    + apply DB_ext; [|done]. rewrite Hf. apply map_eq. intros k.
      apply foldl_upload_other. rewrite Hnone. apply not_elem_of_nil.
    + rewrite Ha, foldl_upload_list, Hnone. done.
Qed.

Lemma handleFileUpload_keeps_sync_witness :
  files_in_sync (handleFileUpload ex_picks (ex_shell, ex_db)).
Proof.
  apply (handleFileUpload_keeps_sync ex_picks (ex_shell, ex_db)).
  - unfold files_in_sync; simpl. rewrite <- os_getAll_perm. by vm_compute.
  - apply (bool_decide_unpack _). by vm_compute.
  - intros u Hu.
    assert (u = "u1" ∨ u = "u2") as Hcases.
    { vm_compute in Hu.
      inversion Hu as [|? ? ? Hu']; [by left|].
      inversion Hu' as [|? ? ? Hu'']; [by right|]. inversion Hu''. }
    destruct Hcases as [-> | ->]; vm_compute; reflexivity.
Defined.

(** X20. An upload made while the selection is ["all"], ["uncategorized"],
    [null] or a stored category keeps every document's [categoryId] either
    [null] or the id of a stored category. *)
Theorem handleFileUpload_keeps_references
    (picks : list (File * (string * Z))) (st : Shell * DB) :
  known_category st.2 (upload_category (activeCategoryId (app st.1))) →
  (∀ k f, files st.2 !! k = Some f →
          known_category st.2 (PdfFile.categoryId f)) →
  ∀ k f, files (handleFileUpload picks st).2 !! k = Some f →
         known_category (handleFileUpload picks st).2 (PdfFile.categoryId f).
Proof.
  intros Hsel Hinv.
  destruct (handleFileUpload_eq picks st) as (Hf & Hc & _).
  set (active := activeCategoryId (app st.1)) in *.
  assert (∀ l s, categories s.2 = categories st.2 →
            (∀ k f, files s.2 !! k = Some f →
                    known_category st.2 (PdfFile.categoryId f)) →
            ∀ k f, files (foldl (upload_one active) s l).2 !! k = Some f →
                   known_category st.2 (PdfFile.categoryId f)) as Hfold.
  { induction l as [|[file [uuid now]] l IH]; intros s Hcs Hs; [done|].
    simpl. apply IH.
    - unfold upload_one. by case_bool_decide.
    - intros k f. unfold upload_one. case_bool_decide; [apply Hs|].
      simpl. unfold os_put. simpl. rewrite lookup_insert.
      case_decide; [|apply Hs]. by intros [= <-]. }
  intros k f Hkf. rewrite Hf in Hkf.
  pose proof (Hfold picks st eq_refl Hinv k f Hkf) as H.
  unfold known_category in *. destruct (PdfFile.categoryId f); [|done].
  by rewrite Hc.
Qed.

Lemma handleFileUpload_keeps_references_witness :
  known_category (handleFileUpload ex_picks (ex_shell, ex_db)).2
    (PdfFile.categoryId
       (new_pdf (Some "c1") (mkFile (txt "e.pdf") "application/pdf" [Byte.x25])
                "u2" 42)).
Proof.
  apply (λ H1 H2,
           handleFileUpload_keeps_references ex_picks (ex_shell, ex_db)
             H1 H2 "u2").
  - by eexists.
  - intros k f Hkf.
    destruct (sys_reachable_inv (mkSys ex_db []) ex_db_reachable)
      as (_ & _ & H).
    unfold known_category.
    destruct (PdfFile.categoryId f) as [c|] eqn:Hc; [|done].
    destruct (H k f c Hkf Hc) as [?|[fuel Hp]]; [done|].
    simpl in Hp. by apply elem_of_nil in Hp.
  - vm_compute. reflexivity.
Defined.

(** ** The reader *)

Lemma zoom_step (s : Q) (z : Zoom) :
  ((1 # 2) <= s)%Q → (s <= 3)%Q → (∃ k : Z, (s == k # 4)%Q) →
  ((1 # 2) <= zoom s z)%Q ∧ (zoom s z <= 3)%Q ∧
  ∃ k : Z, (zoom s z == k # 4)%Q.
Proof.
  intros Hlo Hhi [k Hk]. destruct z; simpl.
  - unfold zoomIn.
    destruct (Q.min_spec 3 (s + (1 # 4))) as [[Hlt E]|[Hle E]].
    + split; [lra|]. split; [lra|]. exists 12. rewrite E. reflexivity.
    + split; [lra|]. split; [lra|].
      exists (k + 1). rewrite E, Hk. unfold Qeq. simpl. lia.
  - unfold zoomOut.
    destruct (Q.max_spec (1 # 2) (s - (1 # 4))) as [[Hlt E]|[Hle E]].
    + split; [lra|]. split; [lra|].
      exists (k - 1). rewrite E, Hk. unfold Qeq. simpl. lia.
    + split; [lra|]. split; [lra|]. exists 2. rewrite E. reflexivity.
Qed.

(** X21. Whatever sequence of zoom clicks follows the initial scale [1.0],
    the scale stays between [0.5] and [3.0] and is a whole number of
    quarters.  Away from the two ends the buttons undo each other. *)
Theorem zoom_stays_in_range :
  (∀ zs : list Zoom,
     ((1 # 2) <= foldl zoom 1 zs)%Q ∧ (foldl zoom 1 zs <= 3)%Q ∧
     ∃ k : Z, (foldl zoom 1 zs == k # 4)%Q) ∧
  (∀ s : Q, ((1 # 2) <= s)%Q → (s <= 11 # 4)%Q →
            (zoomOut (zoomIn s) == s)%Q) ∧
  (∀ s : Q, ((3 # 4) <= s)%Q → (s <= 3)%Q →
            (zoomIn (zoomOut s) == s)%Q).
Proof.
  split; [|split].
  - induction zs as [|z zs IH] using rev_ind.
    + simpl. split; [lra|]. split; [lra|]. exists 4; reflexivity.
    + rewrite foldl_app. simpl. destruct IH as (H1 & H2 & H3).
      by apply zoom_step.
  - intros s Hlo Hhi. unfold zoomOut, zoomIn.
    destruct (Q.min_spec 3 (s + (1 # 4))) as [[Hlt E]|[Hle E]];
      destruct (Q.max_spec (1 # 2) (Qmin 3 (s + (1 # 4)) - (1 # 4)))
        as [[Hlt' E']|[Hle' E']]; rewrite E'; rewrite E in *; lra.
  - intros s Hlo Hhi. unfold zoomOut, zoomIn.
    destruct (Q.max_spec (1 # 2) (s - (1 # 4))) as [[Hlt E]|[Hle E]];
      destruct (Q.min_spec 3 (Qmax (1 # 2) (s - (1 # 4)) + (1 # 4)))
        as [[Hlt' E']|[Hle' E']]; rewrite E'; rewrite E in *; lra.
Qed.

Lemma updatePdfProgress_size db id page total now :
  keyed PdfFile.id (files db) →
  size (files (updatePdfProgress id page total now db)) = size (files db).
Proof.
  intros Hk. rewrite updatePdfProgress_files.
  destruct (files db !! id) as [f|] eqn:E; [|done].
  apply map_size_insert_Some. rewrite (Hk _ _ E). by eexists.
Qed.

(** X22. The progress timer writes nothing while the active page is not
    positive.  With the active page between 1 and the number of pages it
    stores exactly that page and that page count for the open document, so
    the stored [currentPage] lies between 1 and the stored [totalPages]. *)
Theorem syncProgress_page_in_range (now : Z) (rd : ReaderState) (db : DB) :
  (activePage rd ≤ 0 → syncProgress now rd db = db) ∧
  (keyed PdfFile.id (files db) →
   is_Some (files db !! PdfFile.id (rd_file rd)) →
   1 ≤ activePage rd ≤ numPages rd →
   ∃ f', getPdfById (PdfFile.id (rd_file rd)) (syncProgress now rd db)
         = Some f' ∧
         PdfFile.currentPage f' = activePage rd ∧
         PdfFile.totalPages f' = numPages rd ∧
         PdfFile.lastReadAt f' = Some now ∧
         1 ≤ PdfFile.currentPage f' ≤ PdfFile.totalPages f').
Proof.
  unfold syncProgress. split.
  - intros H. destruct (Z.ltb_spec 0 (activePage rd)); [lia|done].
  - intros Hk [f Hf] Hp.
    destruct (Z.ltb_spec 0 (activePage rd)); [|lia].
    exists (progressed (activePage rd) (Some (numPages rd)) now f).
    split; [by apply updatePdfProgress_lookup|].
    assert (truthy_number (numPages rd) = true) as Ht.
    { unfold truthy_number. destruct (Z.eqb_spec (numPages rd) 0); [lia|done]. }
    simpl. rewrite Ht. repeat split; lia.
Qed.

(** X23. A reading session end to end: open a stored document, let the
    viewer report [n] pages, scroll to page [p] (between 1 and [n]), let
    the progress timer fire, close the reader.  The database then holds the
    document with [currentPage = p], [totalPages = n] and the time of the
    timer as [lastReadAt], every other field as before, and the library
    list shows that entry. *)
Theorem reading_session_shows_progress (st : Shell * DB) (id : string)
    (f : PdfFile.t) (n p now1 now2 : Z) (k : nat) :
  keyed PdfFile.id (files st.2) →
  files st.2 !! id = Some f →
  1 ≤ p ≤ n →
  let read :=
    PdfFile.mk (PdfFile.id f) (PdfFile.name f) (PdfFile.categoryId f)
               (PdfFile.blob f) (PdfFile.addedAt f) (Some now2) p n
               (PdfFile.size f) in
  let st1 := handleOpenPdf id st in
  let loaded := onDocumentLoadSuccess n now1 (reader_init f, st1.2) in
  let db2 := syncProgress now2 (observePage p loaded.1) loaded.2 in
  readerFile st1.1 = Some f ∧
  ∃ st',
    handleCloseReader (size (files st.2) + k) (st1.1, db2) = Some st' ∧
    viewState st'.1 = library ∧
    getPdfById id st'.2 = Some read ∧
    omit_blob read ∈ app_files (app st'.1).
Proof.
  intros Hk Hf Hp read st1 loaded db2.
  pose proof (Hk _ _ Hf) as Hid.
  assert (st1 = (mkShell (app st.1) reader (Some id) (Some f)
                         (uploading st.1) (loading st.1), st.2)) as Hst1.
  { unfold st1, handleOpenPdf, getPdfById, os_get. by rewrite Hf. }
  assert (truthy_number n = true) as Hn.
  { unfold truthy_number. destruct (Z.eqb_spec n 0); [lia|done]. }
  assert (keyed PdfFile.id (files loaded.2) ∧
          size (files loaded.2) = size (files st.2) ∧
          ∃ f1, files loaded.2 !! id = Some f1 ∧
                progressed p (Some n) now2 f1 = read) as (Hk1 & Hsz1 & f1 & Hf1 & Hread).
  { unfold loaded, onDocumentLoadSuccess. rewrite Hst1. simpl.
    case_bool_decide; simpl.
    - split; [by apply updatePdfProgress_keyed|].
      split; [by apply updatePdfProgress_size|].
      eexists. rewrite Hid. split; [by apply updatePdfProgress_lookup|].
      unfold progressed, read. simpl. by rewrite Hn.
    - split; [done|]. split; [done|]. exists f. split; [done|].
      unfold progressed, read. simpl. by rewrite Hn. }
  assert (db2 = updatePdfProgress id p (Some n) now2 loaded.2) as Hdb2.
  { unfold db2, syncProgress, observePage. simpl.
    destruct (Z.ltb_spec 0 p); [|lia].
    unfold loaded, onDocumentLoadSuccess. rewrite Hst1. simpl.
    by case_bool_decide; simpl; rewrite Hid. }
  assert (files db2 !! id = Some read) as Hfinal.
  { rewrite Hdb2, <- Hread. by apply updatePdfProgress_lookup. }
  split; [by rewrite Hst1|].
  unfold handleCloseReader. simpl.
  rewrite getAllPdfMetadata_ge.
  2:{ rewrite Hdb2, updatePdfProgress_size by done. lia. }
  simpl. eexists. split; [done|]. simpl.
  split; [done|]. split; [exact Hfinal|].
  rewrite array_sort_perm. apply list_elem_of_fmap_2.
  apply elem_of_os_getAll. by exists id.
Qed.

Lemma reading_session_shows_progress_witness :
  ∃ st',
    handleCloseReader (size (files ex_db) + 0)
      ((handleOpenPdf "f1" (ex_shell, ex_db)).1,
       syncProgress 77
         (observePage 4
            (onDocumentLoadSuccess 12 70
               (reader_init ex_file1,
                (handleOpenPdf "f1" (ex_shell, ex_db)).2)).1)
         (onDocumentLoadSuccess 12 70
            (reader_init ex_file1,
             (handleOpenPdf "f1" (ex_shell, ex_db)).2)).2)
    = Some st' ∧
    viewState st'.1 = library ∧
    getPdfById "f1" st'.2
    = Some (PdfFile.mk "f1" (txt "a.pdf") (Some "c1") ex_blob 10 (Some 77) 4 12 4) ∧
    omit_blob (PdfFile.mk "f1" (txt "a.pdf") (Some "c1") ex_blob 10 (Some 77) 4 12 4)
    ∈ app_files (app st'.1).
Proof.
  apply (reading_session_shows_progress (ex_shell, ex_db) "f1" ex_file1
           12 4 70 77 0).
  - apply ex_db_wf.
  - vm_compute. reflexivity.
  - lia.
Defined.
